(** * simplematrixbotlib.config: the bot's access-control configuration

    A shallow embedding of [src/simplematrixbotlib/config.py] and the
    properties its specification states about it.

    The module holds one dataclass, [Config], with three private fields
    ([_join_on_invite], [_allowlist], [_blocklist]), a property per field,
    add/remove methods for the two lists, and a pair of TOML load/save
    methods.  Python is dynamically typed, so the embedding works over a
    universe of Python values; methods run in a small monad that threads
    the object, the lines printed so far, and a possible exception. *)

From Stdlib Require Import Ascii String.
From stdpp Require Import gmap strings list.

Set Warnings "-register-all".
Local Open Scope string_scope.

(** ** Python values *)

(** A compiled [re.Pattern] over [str]: its [pattern] attribute (the source
    text) and its [flags] attribute.  Two pattern objects compare equal,
    and hash alike, exactly when both agree.  The module itself compiles
    with no flags argument, but its callers can hand it pattern objects
    that they compiled with flags of their choice. *)
Record Pattern := { pattern : string; flags : Z }.

#[global] Instance Pattern_eq_dec : EqDecision Pattern.
Proof. solve_decision. Defined.

#[global] Instance Pattern_countable : Countable Pattern :=
  inj_countable' (λ p, (pattern p, flags p)) (λ sf, {| pattern := sf.1; flags := sf.2 |})
    (λ p, match p with {| pattern := _; flags := _ |} => eq_refl end).

(** The values the module can meet: what a decoded TOML document holds
    (booleans, integers, strings, arrays, tables), what the module itself
    builds (pattern objects and sets), and [None].  A list, a set and a
    dict carry their members in iteration order. *)
Inductive Value :=
| VNone
| VBool (b : bool)
| VInt (z : Z)
| VStr (s : string)
| VPattern (p : Pattern)
| VList (l : list Value)
| VSet (l : list Value)
| VDict (d : list (string * Value)).

(** ** Exceptions and the method monad *)

(** The exceptions that can leave a method of the module: the ones its
    own statements raise, the ones [re.compile] raises besides [re.error]
    (which the module catches), and the ones of opening and decoding a
    file. *)
Inductive Exn :=
| TypeError | IndexError | KeyError | AttributeError
| OverflowError | RecursionError | MemoryError
| FileNotFoundError | OSError | TomlDecodeError.

Inductive Result (A : Type) :=
| Return (a : A)
| Raise (e : Exn).
Arguments Return {A} a.
Arguments Raise {A} e.

#[global] Instance Result_ret : MRet Result := λ A a, Return a.
#[global] Instance Result_bind : MBind Result := λ A B k r,
  match r with
  | Return a => k a
  | Raise e => Raise e
  end.

(** The dataclass.  The annotations of the source ([bool],
    [Set[re.Pattern]]) are not enforced by Python: [_join_on_invite] holds
    whatever was assigned, while the two lists are only ever written with
    the set of patterns that [_check_set_regex] built. *)
Record Config := {
  _join_on_invite : Value;
  _allowlist : gset Pattern;
  _blocklist : gset Pattern
}.

(** [Config()]: the field defaults. *)
Definition Config_default : Config :=
  {| _join_on_invite := VBool true; _allowlist := ∅; _blocklist := ∅ |}.

(** What a method call can observe and change: the object it is called
    on and the lines written to standard output. *)
Record World := { self : Config; stdout : list string }.

Definition M (A : Type) : Type := World → World * Result A.

#[global] Instance M_ret : MRet M := λ A a w, (w, Return a).
#[global] Instance M_bind : MBind M := λ A B k m w,
  match m w with
  | (w', Return a) => k a w'
  | (w', Raise e) => (w', Raise e)
  end.

Definition lift {A} (r : Result A) : M A := λ w, (w, r).
Definition get_self : M Config := λ w, (w, Return (self w)).
Definition put_self (c : Config) : M unit :=
  λ w, ({| self := c; stdout := stdout w |}, Return tt).
Definition print (line : string) : M unit :=
  λ w, ({| self := self w; stdout := stdout w ++ [line] |}, Return tt).

(** Running a method on an object, with nothing printed yet. *)
Definition run {A} (m : M A) (c : Config) : World * Result A :=
  m {| self := c; stdout := [] |}.
Definition after {A} (m : M A) (c : Config) : Config := self (run m c).1.
Definition printed {A} (m : M A) (c : Config) : list string := stdout (run m c).1.
Definition outcome {A} (m : M A) (c : Config) : Result A := (run m c).2.

(** ** Iteration and attribute helpers *)

(** [for v in value]: the members of a list or set, the characters of a
    string, the keys of a dict; anything else is not iterable. *)
Definition chars (s : string) : list Value :=
  (λ c, VStr (String c "")) <$> String.list_ascii_of_string s.

Definition py_iter (value : Value) : Result (list Value) :=
  match value with
  | VList l | VSet l => Return l
  | VStr s => Return (chars s)
  | VDict d => Return ((λ kv, VStr kv.1) <$> d)
  | VNone | VBool _ | VInt _ | VPattern _ => Raise TypeError
  end.

(** [tmp[1:] if tmp[0] == '_' else tmp]; indexing the empty string raises. *)
Definition _strip_leading_underscore (tmp : string) : Result string :=
  match tmp with
  | EmptyString => Raise IndexError
  | String c rest => if Ascii.eqb c "_"%char then Return rest else Return tmp
  end.

(** [d[key] = value] on a dict in insertion order. *)
Fixpoint dict_set (key : string) (value : Value) (d : list (string * Value))
  : list (string * Value) :=
  match d with
  | [] => [(key, value)]
  | (k, v) :: d' =>
      if String.eqb k key then (k, value) :: d' else (k, v) :: dict_set key value d'
  end.

Fixpoint dict_get (key : string) (d : list (string * Value)) : option Value :=
  match d with
  | [] => None
  | (k, v) :: d' => if String.eqb k key then Some v else dict_get key d'
  end.

(** [obj[key]] with a string key: a dict looks the key up, no other value
    accepts a string subscript. *)
Definition getitem (obj : Value) (key : string) : Result Value :=
  match obj with
  | VDict d =>
      match dict_get key d with
      | Some v => Return v
      | None => Raise KeyError
      end
  | _ => Raise TypeError
  end.

(** The dict comprehension of [_config_dict_factory] and its wrapping in
    the two fixed tables. *)
Fixpoint strip_names (tmp : list (string * Value)) (acc : list (string * Value))
  : Result (list (string * Value)) :=
  match tmp with
  | [] => Return acc
  | (name, value) :: tmp' =>
      key ← _strip_leading_underscore name;
      strip_names tmp' (dict_set key value acc)
  end.

Definition _config_dict_factory (tmp : list (string * Value)) : Result Value :=
  config ← strip_names tmp [];
  Return (VDict [("simplematrixbotlib", VDict [("config", VDict config)])]).

(** [fields(self)]: the dataclass fields, in declaration order. *)
Definition field_names : list string :=
  ["_join_on_invite"; "_allowlist"; "_blocklist"].

(** [getattr(self, name)] for a dataclass field.  A set field is the
    Python set of its pattern objects. *)
Definition pattern_set (s : gset Pattern) : Value := VSet (VPattern <$> elements s).

Definition getattr_field (c : Config) (name : string) : Value :=
  if String.eqb name "_join_on_invite" then _join_on_invite c
  else if String.eqb name "_allowlist" then pattern_set (_allowlist c)
  else if String.eqb name "_blocklist" then pattern_set (_blocklist c)
  else VNone.

(** [dataclasses.asdict(self, dict_factory=...)]: every field name paired
    with a copy of its value (booleans, strings, sets and the pattern
    objects in them are copied to equal values), handed to the factory. *)
Definition asdict (c : Config) (dict_factory : list (string * Value) → Result Value)
  : Result Value :=
  dict_factory ((λ name, (name, getattr_field c name)) <$> field_names).

(** ** The libraries the module calls *)

(** What [re.compile(v)] does with a string [v]: it returns a pattern
    object, whose source is [v] and whose flags the compiler sets; or it
    raises [re.error]; or it raises another exception, such as
    [OverflowError] on a repetition count that is too large. *)
Inductive Compile :=
| Compiled (flags : Z)
| ReError
| Uncaught (e : Exn).

(** What a file holds: TOML text, taken up to the document that
    [toml.load] decodes from it, or text that is not TOML. *)
Inductive FileContent :=
| TomlText (document : Value)
| OtherText.

(** The files, by path, and the paths that cannot be opened for writing
    (a missing directory, a directory, a file without write permission). *)
Record FileSystem := {
  files : gmap string FileContent;
  unwritable : gset string
}.

(** ** The class body *)

Section Config.

(** [re.compile] belongs to Python's standard library and [toml.dump] to
    the [toml] package, not to this module; both are parameters.
    [re_compile v] is the outcome of [re.compile(v)] on the string [v],
    and [toml_dump tmp] is the text that [toml.dump(tmp, file)] writes
    for the mapping [tmp]. *)
Variable re_compile : string → Compile.
Variable toml_dump : Value → FileContent.

(** [re.compile(v)] returns a pattern. *)
Definition re_valid (v : string) : bool :=
  match re_compile v with
  | Compiled _ => true
  | ReError | Uncaught _ => false
  end.

(** The pattern that [re.compile(v)] returns, when it returns one. *)
Definition compile_str (v : string) : option Pattern :=
  match re_compile v with
  | Compiled f => Some {| pattern := v; flags := f |}
  | ReError | Uncaught _ => None
  end.

(** The text of the [print] call in [_check_set_regex]. *)
Definition invalid_message (v : string) : string :=
  v ++ " is not a valid regular expression. Ignoring your list update.".

(** The loop of [_check_set_regex].  [re.compile] of a string returns
    its pattern, or raises [re.error], which the [except] clause turns into
    a printed line and a [None] result, or raises another exception, which
    nothing catches; [re.compile] of a pattern object returns that object;
    of anything else it raises [TypeError], which nothing catches. *)
Fixpoint check_loop (vs : list Value) (new_list : gset Pattern)
  : M (option (gset Pattern)) :=
  match vs with
  | [] => mret (Some new_list)
  | VStr v :: vs' =>
      match re_compile v with
      | Compiled f => check_loop vs' (new_list ∪ {[ {| pattern := v; flags := f |} ]})
      | ReError => print (invalid_message v);; mret None
      | Uncaught e => lift (Raise e)
      end
  | VPattern p :: vs' => check_loop vs' (new_list ∪ {[ p ]})
  | _ :: _ => lift (Raise TypeError)
  end.

Definition _check_set_regex (value : Value) : M (option (gset Pattern)) :=
  vs ← lift (py_iter value);
  check_loop vs ∅.

(** *** The properties and the list methods *)

Definition join_on_invite : M Value :=
  c ← get_self; mret (_join_on_invite c).

Definition join_on_invite_setter (value : Value) : M Value :=
  c ← get_self;
  put_self {| _join_on_invite := value;
              _allowlist := _allowlist c;
              _blocklist := _blocklist c |};;
  mret VNone.

Definition allowlist : M Value :=
  c ← get_self; mret (pattern_set (_allowlist c)).

Definition assign_allowlist (s : gset Pattern) : M unit :=
  c ← get_self;
  put_self {| _join_on_invite := _join_on_invite c;
              _allowlist := s;
              _blocklist := _blocklist c |}.

Definition allowlist_setter (value : Value) : M Value :=
  checked ← _check_set_regex value;
  match checked with
  | None => mret VNone
  | Some checked => assign_allowlist checked;; mret VNone
  end.

Definition add_allowlist (value : Value) : M Value :=
  checked ← _check_set_regex value;
  match checked with
  | None => mret VNone
  | Some checked =>
      c ← get_self;
      assign_allowlist (_allowlist c ∪ checked);; mret VNone
  end.

Definition remove_allowlist (value : Value) : M Value :=
  checked ← _check_set_regex value;
  match checked with
  | None => mret VNone
  | Some checked =>
      c ← get_self;
      assign_allowlist (_allowlist c ∖ checked);; mret VNone
  end.

Definition blocklist : M Value :=
  c ← get_self; mret (pattern_set (_blocklist c)).

Definition assign_blocklist (s : gset Pattern) : M unit :=
  c ← get_self;
  put_self {| _join_on_invite := _join_on_invite c;
              _allowlist := _allowlist c;
              _blocklist := s |}.

Definition blocklist_setter (value : Value) : M Value :=
  checked ← _check_set_regex value;
  match checked with
  | None => mret VNone
  | Some checked => assign_blocklist checked;; mret VNone
  end.

Definition add_blocklist (value : Value) : M Value :=
  checked ← _check_set_regex value;
  match checked with
  | None => mret VNone
  | Some checked =>
      c ← get_self;
      assign_blocklist (_blocklist c ∪ checked);; mret VNone
  end.

Definition remove_blocklist (value : Value) : M Value :=
  checked ← _check_set_regex value;
  match checked with
  | None => mret VNone
  | Some checked =>
      c ← get_self;
      assign_blocklist (_blocklist c ∖ checked);; mret VNone
  end.

(** *** Loading and saving *)

(** [setattr(self, key, value)]: the three public names are properties,
    so the assignment runs the property's setter.  Any other name would
    become a plain instance attribute, which is outside the three
    fields modelled here. *)
Definition setattr (key : string) (value : Value) : M Value :=
  if String.eqb key "join_on_invite" then join_on_invite_setter value
  else if String.eqb key "allowlist" then allowlist_setter value
  else if String.eqb key "blocklist" then blocklist_setter value
  else mret VNone.

Fixpoint strip_all (names : list string) : Result (list string) :=
  match names with
  | [] => Return []
  | name :: names' =>
      n ← _strip_leading_underscore name;
      ns ← strip_all names';
      Return (n :: ns)
  end.

(** [key not in existing_fields] is the negation of this test. *)
Definition key_in (key : string) (existing_fields : list string) : bool :=
  existsb (String.eqb key) existing_fields.

Fixpoint load_loop (existing_fields : list string) (items : list (string * Value))
  : M Value :=
  match items with
  | [] => mret VNone
  | (key, value) :: items' =>
      if negb (key_in key existing_fields)
      then load_loop existing_fields items'
      else setattr key value;; load_loop existing_fields items'
  end.

Definition _load_config_dict (config_dict : list (string * Value)) : M Value :=
  existing_fields ← lift (strip_all field_names);
  load_loop existing_fields config_dict.

(** [config_dict.items()] needs a dict. *)
Definition items (v : Value) : Result (list (string * Value)) :=
  match v with
  | VDict d => Return d
  | _ => Raise AttributeError
  end.

(** [open(file_path, 'r')] and [toml.load(file)]. *)
Definition read_toml (fs : FileSystem) (file_path : string) : Result Value :=
  match files fs !! file_path with
  | None => Raise FileNotFoundError
  | Some OtherText => Raise TomlDecodeError
  | Some (TomlText document) => Return document
  end.

(** [load_toml], on the files [fs]. *)
Definition load_toml (fs : FileSystem) (file_path : string) : M Value :=
  document ← lift (read_toml fs file_path);
  config_dict ← lift (table ← getitem document "simplematrixbotlib";
                      getitem table "config");
  d ← lift (items config_dict);
  _load_config_dict d.

(** [save_toml], on the files [fs].  The method returns [None]; the value
    returned here is the files after the call.  [open(file_path, 'w')]
    comes after the mapping is built and before the text is written. *)
Definition save_toml (fs : FileSystem) (file_path : string) : M FileSystem :=
  c ← get_self;
  tmp ← lift (asdict c _config_dict_factory);
  if bool_decide (file_path ∈ unwritable fs)
  then lift (Raise OSError)
  else mret {| files := <[file_path := toml_dump tmp]> (files fs);
               unwritable := unwritable fs |}.

End Config.

(** ** A concrete dialect and encoder for running the model

    The examples below need some [re_compile] to compute with.  This one
    rejects with [re.error] a source whose last character set is opened by
    a bracket and never closed, which is how [re.compile] fails on ["b["];
    it raises [OverflowError] on ["a{4294967296}"], whose repetition count
    is too large; and it compiles ["a.*"], ["c"] and the other sources used
    in the examples, as [re.compile] does, with the flags of a [str]
    pattern that sets none ([re.UNICODE], 32). *)
Fixpoint sets_closed (in_set : bool) (s : string) : bool :=
  match s with
  | EmptyString => negb in_set
  | String c s' =>
      if in_set
      then sets_closed (negb (Ascii.eqb c "]"%char)) s'
      else sets_closed (Ascii.eqb c "["%char) s'
  end.

Definition demo_valid (s : string) : bool := sets_closed false s.

Definition demo_compile (s : string) : Compile :=
  if String.eqb s "a{4294967296}" then Uncaught OverflowError
  else if demo_valid s then Compiled 32
  else ReError.

(** The [repr] of a pattern object whose source is plain (printable, no
    quote, no backslash) and whose flags are the default ones. *)
Definition pattern_repr (p : Pattern) : string :=
  "re.compile('" ++ pattern p ++ "')".

(** The document that the text written by [toml.dump] denotes, for
    mappings of booleans, integers, strings, tables, and lists or sets of
    these and of pattern objects with a plain source: the encoder writes
    anything it can iterate as an array, and a value of a type it does not
    know, such as a pattern object, as the string of its [repr]. *)
Fixpoint demo_toml_value (v : Value) : Value :=
  match v with
  | VPattern p => VStr (pattern_repr p)
  | VList l | VSet l => VList (List.map demo_toml_value l)
  | VDict d => VDict (List.map (λ kv, (kv.1, demo_toml_value kv.2)) d)
  | VNone | VBool _ | VInt _ | VStr _ => v
  end.

Definition demo_toml_dump (tmp : Value) : FileContent :=
  TomlText (demo_toml_value tmp).

Definition one_allowed : Config :=
  {| _join_on_invite := VBool true;
     _allowlist := {[ {| pattern := "a.*"; flags := 32 |} ]};
     _blocklist := ∅ |}.

(** No file, every path writable. *)
Definition no_files : FileSystem := {| files := ∅; unwritable := ∅ |}.

(** A candidate set of strings, as the callers of the list methods pass
    it, and the array of strings a decoded TOML document holds. *)
Definition str_set (S : list string) : Value := VSet (VStr <$> S).
Definition str_list (S : list string) : Value := VList (VStr <$> S).

(** The patterns that compiling the strings of [S] gives. *)
Definition compiled (re_compile : string → Compile) (S : list string) : gset Pattern :=
  list_to_set (omap (compile_str re_compile) S).

(** The first string of [S], in iteration order, that does not compile. *)
Definition first_invalid (re_compile : string → Compile) (S : list string)
  : option string :=
  List.find (λ v, negb (re_valid re_compile v)) S.

Definition with_line (w : World) (line : string) : World :=
  {| self := self w; stdout := stdout w ++ [line] |}.

(** How validation ends at a string [v] that does not compile: with the
    uncaught exception [re.compile] raised, or else with its line printed
    and [None] returned. *)
Definition stopped_at (re_compile : string → Compile) (w : World) (v : string)
  : World * Result (option (gset Pattern)) :=
  match re_compile v with
  | Uncaught e => (w, Raise e)
  | ReError | Compiled _ => (with_line w (invalid_message v), Return None)
  end.

Definition with_allowlist (c : Config) (s : gset Pattern) : Config :=
  {| _join_on_invite := _join_on_invite c; _allowlist := s; _blocklist := _blocklist c |}.
Definition with_blocklist (c : Config) (s : gset Pattern) : Config :=
  {| _join_on_invite := _join_on_invite c; _allowlist := _allowlist c; _blocklist := s |}.
Definition with_join_on_invite (c : Config) (v : Value) : Config :=
  {| _join_on_invite := v; _allowlist := _allowlist c; _blocklist := _blocklist c |}.

(** The six list methods, indexed by the list they write and by what they
    do with the validated batch. *)
Inductive Target := Allowlist | Blocklist.
Inductive ListOp := SetList | AddToList | RemoveFromList.

#[global] Instance Target_eq_dec : EqDecision Target.
Proof. solve_decision. Defined.

Definition method (re_compile : string → Compile) (t : Target) (o : ListOp)
  : Value → M Value :=
  match t, o with
  | Allowlist, SetList => allowlist_setter re_compile
  | Allowlist, AddToList => add_allowlist re_compile
  | Allowlist, RemoveFromList => remove_allowlist re_compile
  | Blocklist, SetList => blocklist_setter re_compile
  | Blocklist, AddToList => add_blocklist re_compile
  | Blocklist, RemoveFromList => remove_blocklist re_compile
  end.

Definition list_of (t : Target) (c : Config) : gset Pattern :=
  match t with Allowlist => _allowlist c | Blocklist => _blocklist c end.

Definition other (t : Target) : Target :=
  match t with Allowlist => Blocklist | Blocklist => Allowlist end.

Definition with_list (t : Target) (c : Config) (s : gset Pattern) : Config :=
  match t with Allowlist => with_allowlist c s | Blocklist => with_blocklist c s end.

Definition combine (o : ListOp) (old checked : gset Pattern) : gset Pattern :=
  match o with
  | SetList => checked
  | AddToList => old ∪ checked
  | RemoveFromList => old ∖ checked
  end.

(** The public names of the three fields, which are also the names of
    the three properties. *)
Definition logical_fields : list string := ["join_on_invite"; "allowlist"; "blocklist"].

Definition public_name (t : Target) : string :=
  match t with Allowlist => "allowlist" | Blocklist => "blocklist" end.

(** An entry of a loaded mapping whose key is one of the public names. *)
Definition known (kv : string * Value) : bool := key_in kv.1 logical_fields.

(** ** Vocabulary of the statements *)

Section Vocabulary.

Variable re_compile : string → Compile.

(** Every pattern object inside a value is one that [re.compile] can
    return: its source text compiles. *)
Fixpoint genuine (v : Value) : bool :=
  match v with
  | VPattern p => re_valid re_compile (pattern p)
  | VList l | VSet l => forallb genuine l
  | VDict d => forallb (λ kv, genuine kv.2) d
  | VNone | VBool _ | VInt _ | VStr _ => true
  end.

(** The invariant of the two lists: every member compiles. *)
Definition all_compiled (s : gset Pattern) : Prop :=
  ∀ p, p ∈ s → re_valid re_compile (pattern p) = true.

Definition store_ok (c : Config) : Prop :=
  all_compiled (_allowlist c) ∧ all_compiled (_blocklist c).



End Vocabulary.

(** The getter of each list. *)
Definition getter (t : Target) : M Value :=
  match t with Allowlist => allowlist | Blocklist => blocklist end.

(** The mapping that [save_toml] builds, around the table of fields. *)
Definition saved (config : list (string * Value)) : Value :=
  VDict [("simplematrixbotlib", VDict [("config", VDict config)])].

(** The table of fields that [save_toml] builds for a store. *)
Definition saved_fields (c : Config) : list (string * Value) :=
  [("join_on_invite", _join_on_invite c);
   ("allowlist", pattern_set (_allowlist c));
   ("blocklist", pattern_set (_blocklist c))].

(** An array holding the source texts of the patterns of [s], each once
    or more, in some order. *)
Definition source_array (s : gset Pattern) (v : Value) : Prop :=
  ∃ S, v = str_list S ∧ ∀ x, x ∈ S ↔ ∃ p, p ∈ s ∧ pattern p = x.

(** ** Batches of arbitrary values *)

(** What [re.compile] makes of one member of a batch when it does not
    raise: the pattern of a string, a pattern object itself. *)
Definition pattern_of (re_compile : string → Compile) (v : Value) : option Pattern :=
  match v with
  | VStr s => compile_str re_compile s
  | VPattern p => Some p
  | _ => None
  end.

Definition patterns_of (re_compile : string → Compile) (vs : list Value)
  : gset Pattern :=
  list_to_set (omap (pattern_of re_compile) vs).

(** A member that [re.compile] takes: a string or a pattern object. *)
Definition str_or_pattern (v : Value) : bool :=
  match v with
  | VStr _ | VPattern _ => true
  | _ => false
  end.

(** A member is acceptable when it is a string that compiles or a pattern
    object; a batch is accepted when it can be iterated and every member
    is acceptable. *)
Definition acceptable (re_compile : string → Compile) (v : Value) : bool :=
  match v with
  | VStr s => re_valid re_compile s
  | VPattern _ => true
  | _ => false
  end.

Definition members (value : Value) : list Value :=
  match py_iter value with
  | Return vs => vs
  | Raise _ => []
  end.

Definition accepted (re_compile : string → Compile) (value : Value) : bool :=
  match py_iter value with
  | Return vs => forallb (acceptable re_compile) vs
  | Raise _ => false
  end.

(** Why validation of a value raises [e]: [TypeError] when the value
    cannot be iterated or holds a member that is neither a string nor a
    pattern object, or else what [re.compile] raised, other than
    [re.error], on a string of the value. *)
Definition raises_on (re_compile : string → Compile) (v : Value) (e : Exn) : Prop :=
  (e = TypeError
   ∧ (py_iter v = Raise TypeError ∨ ∃ x, x ∈ members v ∧ str_or_pattern x = false))
  ∨ ∃ s, VStr s ∈ members v ∧ re_compile s = Uncaught e.

(** A value that is not a table. *)
Definition not_a_table (v : Value) : Prop := ∀ d, v ≠ VDict d.

(** A file from which [load_toml] cannot reach the [config] table, with
    the exception that tells why: the file is missing, it is not TOML,
    its [simplematrixbotlib] entry is not a table, or the [config] entry
    of that table is not a table. *)
Inductive unusable (fs : FileSystem) (file_path : string) : Exn → Prop :=
| unusable_missing :
    files fs !! file_path = None →
    unusable fs file_path FileNotFoundError
| unusable_not_toml :
    files fs !! file_path = Some OtherText →
    unusable fs file_path TomlDecodeError
| unusable_section d x :
    files fs !! file_path = Some (TomlText (VDict d)) →
    dict_get "simplematrixbotlib" d = Some x → not_a_table x →
    unusable fs file_path TypeError
| unusable_config d table x :
    files fs !! file_path = Some (TomlText (VDict d)) →
    dict_get "simplematrixbotlib" d = Some (VDict table) →
    dict_get "config" table = Some x → not_a_table x →
    unusable fs file_path AttributeError.

(** The one-character strings of a string, in order. *)
Definition char_strings (s : string) : list string :=
  (λ ch, String ch "") <$> String.list_ascii_of_string s.

(** The pairs of a dict comprehension's input with their names stripped,
    when no name is empty. *)
Definition stripped_pairs (tmp : list (string * Value)) : list (string * Value) :=
  (λ nv, (match nv.1 with
          | String c rest => if Ascii.eqb c "_"%char then rest else nv.1
          | EmptyString => nv.1
          end, nv.2)) <$> tmp.

(** * Properties *)

Local Open Scope list_scope.

Ltac unfold_monad :=
  unfold mbind, mret, M_bind, M_ret, Result_bind, Result_ret,
    lift, get_self, put_self, print in *.

Section Validation.

Variable re_compile : string → Compile.

Lemma re_valid_Compiled v :
  re_valid re_compile v = true ↔ ∃ f, re_compile v = Compiled f.
Proof.
  unfold re_valid. destruct (re_compile v); split; try done; eauto.
  all: by intros [f Hf].
Qed.

Lemma compile_str_valid v :
  re_valid re_compile v = true →
  ∃ f, re_compile v = Compiled f
       ∧ compile_str re_compile v = Some {| pattern := v; flags := f |}.
Proof.
  intros H. apply re_valid_Compiled in H as [f Hf]. exists f.
  unfold compile_str. by rewrite Hf.
Qed.

Lemma compile_str_invalid v :
  re_valid re_compile v = false → compile_str re_compile v = None.
Proof. unfold re_valid, compile_str. by destruct (re_compile v). Qed.

Lemma first_invalid_None S :
  first_invalid re_compile S = None ↔ ∀ v, v ∈ S → re_valid re_compile v = true.
Proof.
  unfold first_invalid. induction S as [|x S IH]; simpl.
  - split; [intros _ v Hv; inversion Hv | done].
  - destruct (re_valid re_compile x) eqn:Hx; simpl.
    + rewrite IH. split.
      * intros H v Hv. apply elem_of_cons in Hv as [->|Hv]; auto.
      * intros H v Hv. apply H. by right.
    + split; [done|]. intros H. specialize (H x (list_elem_of_here _ _)). congruence.
Qed.


Lemma some_invalid S :
  (∃ v, v ∈ S ∧ re_valid re_compile v = false) →
  ∃ v, first_invalid re_compile S = Some v.
Proof.
  intros (v & Hin & Hv). destruct (first_invalid re_compile S) eqn:E; [eauto|].
  pose proof (proj1 (first_invalid_None S) E v Hin). congruence.
Qed.

(** The loop over a batch of strings: it stops at the first string that
    does not compile, and gives the compiled set when there is none. *)
Lemma check_loop_strings S acc w :
  check_loop re_compile (VStr <$> S) acc w =
    match first_invalid re_compile S with
    | Some v => stopped_at re_compile w v
    | None => (w, Return (Some (acc ∪ compiled re_compile S)))
    end.
Proof.
  unfold first_invalid, compiled, stopped_at, re_valid, compile_str. revert acc.
  induction S as [|x S IH]; intros acc; simpl.
  - unfold_monad. by rewrite union_empty_r_L.
  - destruct (re_compile x) as [f| |e] eqn:Hx; simpl.
    + rewrite IH. destruct (List.find _ S); [done|].
      by rewrite (assoc_L (∪)).
    + by rewrite Hx.
    + by rewrite Hx.
Qed.

Lemma check_str_set S w :
  _check_set_regex re_compile (str_set S) w =
    match first_invalid re_compile S with
    | Some v => stopped_at re_compile w v
    | None => (w, Return (Some (compiled re_compile S)))
    end.
Proof.
  unfold _check_set_regex, str_set. unfold_monad. simpl.
  rewrite check_loop_strings. by rewrite union_empty_l_L.
Qed.


(** Pattern objects pass through [re.compile] unchanged. *)
Lemma check_loop_patterns (l : list Pattern) acc w :
  check_loop re_compile (VPattern <$> l) acc w
  = (w, Return (Some (acc ∪ list_to_set l))).
Proof.
  revert acc. induction l as [|p l IH]; intros acc; simpl.
  - unfold_monad. by rewrite union_empty_r_L.
  - rewrite IH. by rewrite (assoc_L (∪)).
Qed.

Lemma check_pattern_set (s : gset Pattern) w :
  _check_set_regex re_compile (pattern_set s) w = (w, Return (Some s)).
Proof.
  unfold _check_set_regex, pattern_set. unfold_monad. simpl.
  rewrite check_loop_patterns. by rewrite union_empty_l_L, list_to_set_elements_L.
Qed.

(** Validation never touches the object: whatever the argument, it can
    only print and return or raise. *)
Lemma check_loop_self vs acc w :
  self (check_loop re_compile vs acc w).1 = self w.
Proof.
  revert acc. induction vs as [|v vs IH]; intros acc; simpl; [done|].
  destruct v; simpl; try done.
  destruct (re_compile s); [apply IH | done | done].
Qed.

Lemma check_self value w :
  self (_check_set_regex re_compile value w).1 = self w.
Proof.
  unfold _check_set_regex. unfold_monad.
  destruct (py_iter value); simpl; [apply check_loop_self | done].
Qed.

Lemma stopped_at_self w v : self (stopped_at re_compile w v).1 = self w.
Proof. unfold stopped_at. by destruct (re_compile v). Qed.

Lemma stopped_at_not_set w v s : (stopped_at re_compile w v).2 ≠ Return (Some s).
Proof. unfold stopped_at. by destruct (re_compile v). Qed.

Lemma str_list_inj S S' : str_list S = str_list S' → S = S'.
Proof.
  unfold str_list. intros [= H]. revert S' H.
  induction S as [|x S IH]; intros [|x' S'] H; try discriminate H; [done|].
  cbn in H. injection H as -> H. by rewrite (IH S' H).
Qed.

End Validation.

Section Mutations.

Variable re_compile : string → Compile.

(** Every list method is its validation followed, when validation
    returned a set, by one assignment to its own list. *)
Lemma method_world t o value w :
  method re_compile t o value w =
    let checked := _check_set_regex re_compile value w in
    match checked.2 with
    | Return (Some s) =>
        ({| self := with_list t (self w) (combine o (list_of t (self w)) s);
            stdout := stdout checked.1 |}, Return VNone)
    | Return None => ({| self := self w; stdout := stdout checked.1 |}, Return VNone)
    | Raise e => ({| self := self w; stdout := stdout checked.1 |}, Raise e)
    end.
Proof.
  pose proof (check_self re_compile value w) as Hself.
  destruct t, o; unfold method, allowlist_setter, add_allowlist,
    remove_allowlist, blocklist_setter, add_blocklist, remove_blocklist,
    assign_allowlist, assign_blocklist; unfold_monad;
    destruct (_check_set_regex re_compile value w) as [[c' out] [[s|]|e]];
    simpl in *; subst c'; reflexivity.
Qed.

Lemma run_method t o value c :
  run (method re_compile t o value) c =
    let checked := _check_set_regex re_compile value {| self := c; stdout := [] |} in
    match checked.2 with
    | Return (Some s) =>
        ({| self := with_list t c (combine o (list_of t c) s);
            stdout := stdout checked.1 |}, Return VNone)
    | Return None => ({| self := c; stdout := stdout checked.1 |}, Return VNone)
    | Raise e => ({| self := c; stdout := stdout checked.1 |}, Raise e)
    end.
Proof. apply method_world. Qed.

Lemma run_method_strings t o S c :
  run (method re_compile t o (str_set S)) c =
    match first_invalid re_compile S with
    | Some v =>
        match re_compile v with
        | Uncaught e => ({| self := c; stdout := [] |}, Raise e)
        | ReError | Compiled _ =>
            ({| self := c; stdout := [invalid_message v] |}, Return VNone)
        end
    | None =>
        ({| self := with_list t c (combine o (list_of t c) (compiled re_compile S));
            stdout := [] |}, Return VNone)
    end.
Proof.
  rewrite run_method, check_str_set.
  destruct (first_invalid re_compile S) as [v|]; [|done].
  unfold stopped_at. by destruct (re_compile v).
Qed.

(** C1.  Whatever the store holds, when at least one string of the
    candidate set does not compile as a regex, each of the six mutating
    methods (assigning to, adding to, removing from the allowlist or the
    blocklist) leaves the store exactly as it was: no candidate is
    admitted, not even those that compile. *)
Theorem invalid_batch_changes_nothing (t : Target) (o : ListOp) (c : Config)
    (S : list string) :
  (∃ v, v ∈ S ∧ re_valid re_compile v = false) →
  after (method re_compile t o (str_set S)) c = c.
Proof.
  intros H. apply some_invalid in H as [v Hv].
  unfold after. rewrite run_method_strings, Hv. by destruct (re_compile v).
Qed.

(** C8.  When every string of [S] compiles, adding [S] to a list twice
    gives the same store, hence the same list, as adding it once. *)
Theorem add_twice_is_add_once (t : Target) (c : Config) (S : list string) :
  (∀ v, v ∈ S → re_valid re_compile v = true) →
  after (method re_compile t AddToList (str_set S))
    (after (method re_compile t AddToList (str_set S)) c)
  = after (method re_compile t AddToList (str_set S)) c.
Proof.
  intros H. apply first_invalid_None in H.
  unfold after. rewrite !run_method_strings, H. simpl.
  assert (Hidem : ∀ old new : gset Pattern, old ∪ new ∪ new = old ∪ new)
    by (intros old new; by rewrite <- (assoc_L (∪)), union_idemp_L).
  destruct t; unfold with_allowlist, with_blocklist; simpl; by rewrite Hidem.
Qed.

(** C9.  A method of the allowlist leaves the blocklist and the
    join-on-invite flag as they were, and a method of the blocklist leaves
    the allowlist and the flag as they were, for every argument: one
    that validates, one that fails validation, and one that makes the
    method raise. *)
Theorem list_methods_frame (t : Target) (o : ListOp) (c : Config) (value : Value) :
  list_of (other t) (after (method re_compile t o value) c) = list_of (other t) c
  ∧ _join_on_invite (after (method re_compile t o value) c) = _join_on_invite c.
Proof.
  unfold after. rewrite run_method. simpl.
  destruct (_check_set_regex re_compile value _).2 as [[s|]|e]; by destruct t.
Qed.


End Mutations.

Section Loading.

Variable re_compile : string → Compile.

Lemma existing_fields_eq : strip_all field_names = Return logical_fields.
Proof. reflexivity. Qed.

Lemma load_config_dict_eq d w :
  _load_config_dict re_compile d w = load_loop re_compile logical_fields d w.
Proof. reflexivity. Qed.

Lemma load_loop_unknown k v d w :
  key_in k logical_fields = false →
  load_loop re_compile logical_fields ((k, v) :: d) w
  = load_loop re_compile logical_fields d w.
Proof. intros H. cbn [load_loop]. by rewrite H. Qed.

Lemma load_loop_known k v d w :
  key_in k logical_fields = true →
  load_loop re_compile logical_fields ((k, v) :: d) w
  = match setattr re_compile k v w with
    | (w', Return _) => load_loop re_compile logical_fields d w'
    | (w', Raise e) => (w', Raise e)
    end.
Proof. intros H. cbn [load_loop]. by rewrite H. Qed.

Lemma load_loop_filter d w :
  load_loop re_compile logical_fields d w
  = load_loop re_compile logical_fields (List.filter known d) w.
Proof.
  revert w. induction d as [|[k v] d IH]; intros w; [done|].
  unfold known at 1. cbn [List.filter fst].
  destruct (key_in k logical_fields) eqn:Hk.
  - rewrite !load_loop_known by done.
    destruct (setattr re_compile k v w) as [w' [r|e]]; [apply IH | done].
  - rewrite load_loop_unknown by done. apply IH.
Qed.

Lemma filter_known_nil d :
  (∀ k v, (k, v) ∈ d → key_in k logical_fields = false) → List.filter known d = [].
Proof.
  induction d as [|[k v] d IH]; intros H; [done|].
  unfold known at 1. cbn [List.filter fst].
  rewrite (H k v) by left. apply IH. intros k' v' Hin. apply (H k' v'). by right.
Qed.

Lemma filter_known_app d1 d2 :
  List.filter known (d1 ++ d2) = List.filter known d1 ++ List.filter known d2.
Proof. apply List.filter_app. Qed.

(** C6.  Entries of the loaded mapping whose key is not one of the three
    public field names are skipped: loading the mapping does exactly
    what loading it without those entries does (same store, same output,
    same result), and a mapping made of such entries only loads without
    an exception and leaves every field as it was. *)
Theorem unknown_keys_ignored (c : Config) (d : list (string * Value)) :
  run (_load_config_dict re_compile d) c
  = run (_load_config_dict re_compile (List.filter known d)) c
  ∧ ((∀ k v, (k, v) ∈ d → key_in k logical_fields = false) →
     run (_load_config_dict re_compile d) c
     = ({| self := c; stdout := [] |}, Return VNone)).
Proof.
  unfold run. rewrite !load_config_dict_eq. split.
  - apply load_loop_filter.
  - intros H. by rewrite load_loop_filter, (filter_known_nil d H).
Qed.

Lemma setattr_join_on_invite v w :
  setattr re_compile "join_on_invite" v w
  = ({| self := with_join_on_invite (self w) v; stdout := stdout w |}, Return VNone).
Proof. reflexivity. Qed.

(** C10.  The [join_on_invite] setter checks nothing: a direct
    assignment installs the supplied value, whatever it is, and so does
    loading a mapping that carries the key (next to keys that are not
    field names); a value that is not a boolean is stored as it is,
    nothing is printed and nothing is raised. *)
Theorem join_on_invite_unchecked (c : Config) (v : Value)
    (d1 d2 : list (string * Value)) :
  (∀ k x, (k, x) ∈ d1 ++ d2 → key_in k logical_fields = false) →
  run (join_on_invite_setter v) c
  = ({| self := with_join_on_invite c v; stdout := [] |}, Return VNone)
  ∧ run (_load_config_dict re_compile (d1 ++ ("join_on_invite", v) :: d2)) c
    = ({| self := with_join_on_invite c v; stdout := [] |}, Return VNone).
Proof.
  intros H. split; [reflexivity|].
  unfold run. rewrite load_config_dict_eq, load_loop_filter, filter_known_app.
  rewrite (filter_known_nil d1) by (intros k x Hin; apply (H k x), elem_of_app; by left).
  cbn [List.filter app]. unfold known at 1. cbn [fst].
  change (key_in "join_on_invite" logical_fields) with true. cbn iota.
  rewrite (filter_known_nil d2) by (intros k x Hin; apply (H k x), elem_of_app; by right).
  reflexivity.
Qed.

Lemma first_invalid_forallb S :
  first_invalid re_compile S = None ↔ forallb (re_valid re_compile) S = true.
Proof.
  rewrite first_invalid_None, forallb_forall.
  split; intros H v Hv; apply H; by apply list_elem_of_In.
Qed.


Lemma dict_get_fresh k (d : list (string * Value)) :
  k ∉ d.*1 → dict_get k d = None.
Proof.
  induction d as [|[k' v] d IH]; intros H; [done|].
  cbn [dict_get]. destruct (String.eqb_spec k' k) as [->|Hne].
  - exfalso. apply H. by left.
  - apply IH. intros Hin. apply H. by right.
Qed.





End Loading.

Section Invariant.

Variable re_compile : string → Compile.

Lemma all_compiled_empty : all_compiled re_compile ∅.
Proof. intros p Hp. set_solver. Qed.

Lemma all_compiled_add s p :
  all_compiled re_compile s → re_valid re_compile (pattern p) = true →
  all_compiled re_compile (s ∪ {[ p ]}).
Proof.
  intros Hs Hp q Hq. apply elem_of_union in Hq as [Hq|Hq]; [by apply Hs|].
  apply elem_of_singleton in Hq. by subst.
Qed.

Lemma all_compiled_combine o old checked :
  all_compiled re_compile old → all_compiled re_compile checked →
  all_compiled re_compile (combine o old checked).
Proof.
  intros Hold Hnew p Hp. destruct o; cbn [combine] in Hp.
  - by apply Hnew.
  - apply elem_of_union in Hp as [Hp|Hp]; [by apply Hold | by apply Hnew].
  - apply elem_of_difference in Hp as [Hp _]. by apply Hold.
Qed.

Lemma check_loop_ok vs acc w s :
  forallb (genuine re_compile) vs = true → all_compiled re_compile acc →
  (check_loop re_compile vs acc w).2 = Return (Some s) →
  all_compiled re_compile s.
Proof.
  revert acc. induction vs as [|v vs IH]; intros acc Hvs Hacc Hrun.
  - cbn in Hrun. by injection Hrun as <-.
  - cbn [forallb] in Hvs. apply andb_prop in Hvs as [Hv Hvs].
    destruct v; cbn [check_loop] in Hrun; try discriminate Hrun.
    + destruct (re_compile s0) as [f| |e] eqn:Hs0; try discriminate Hrun.
      apply (IH _ Hvs) in Hrun; [done|].
      apply all_compiled_add; [done|]. cbn [pattern].
      apply re_valid_Compiled. by exists f.
    + apply (IH _ Hvs (all_compiled_add _ _ Hacc Hv) Hrun).
Qed.

Lemma py_iter_genuine value vs :
  genuine re_compile value = true → py_iter value = Return vs →
  forallb (genuine re_compile) vs = true.
Proof.
  intros Hg Hiter. destruct value; cbn in Hiter; try discriminate Hiter;
    injection Hiter as <-.
  - unfold chars. induction (String.list_ascii_of_string s) as [|a l IH];
      [reflexivity | exact IH].
  - exact Hg.
  - exact Hg.
  - clear Hg. induction d as [|kv d IH]; [reflexivity | exact IH].
Qed.

Lemma check_ok value w s :
  genuine re_compile value = true →
  (_check_set_regex re_compile value w).2 = Return (Some s) →
  all_compiled re_compile s.
Proof.
  intros Hg. unfold _check_set_regex. unfold_monad.
  destruct (py_iter value) as [vs|e] eqn:Hiter; [|discriminate].
  apply check_loop_ok; [by apply (py_iter_genuine value) | apply all_compiled_empty].
Qed.

Lemma with_list_ok t c s :
  store_ok re_compile c → all_compiled re_compile s →
  store_ok re_compile (with_list t c s).
Proof. intros [Ha Hb] Hs. by destruct t. Qed.

Lemma list_of_ok t c : store_ok re_compile c → all_compiled re_compile (list_of t c).
Proof. intros [Ha Hb]. by destruct t. Qed.

Lemma method_ok t o value w :
  store_ok re_compile (self w) → genuine re_compile value = true →
  store_ok re_compile (self (method re_compile t o value w).1).
Proof.
  intros Hc Hg. rewrite method_world. cbn zeta.
  destruct (_check_set_regex re_compile value w).2 as [[s|]|e] eqn:Hcheck; try done.
  cbn [fst self]. apply with_list_ok; [done|].
  apply all_compiled_combine; [by apply list_of_ok | by apply (check_ok value w)].
Qed.

Lemma setattr_ok k v w :
  store_ok re_compile (self w) → genuine re_compile v = true →
  store_ok re_compile (self (setattr re_compile k v w).1).
Proof.
  intros Hc Hg. unfold setattr.
  destruct (String.eqb k "join_on_invite"); [exact Hc|].
  destruct (String.eqb k "allowlist"); [by apply (method_ok Allowlist SetList)|].
  destruct (String.eqb k "blocklist"); [by apply (method_ok Blocklist SetList)|].
  exact Hc.
Qed.

Lemma load_loop_ok d w :
  store_ok re_compile (self w) → Forall (λ kv, genuine re_compile kv.2 = true) d →
  store_ok re_compile (self (load_loop re_compile logical_fields d w).1).
Proof.
  revert w. induction d as [|[k v] d IH]; intros w Hc Hd; [done|].
  apply Forall_cons in Hd as [Hv Hd].
  destruct (key_in k logical_fields) eqn:Hk.
  - rewrite load_loop_known by done.
    pose proof (setattr_ok k v w Hc Hv) as Hstep.
    destruct (setattr re_compile k v w) as [w' [r|e]]; [by apply IH | done].
  - rewrite load_loop_unknown by done. by apply IH.
Qed.

(** C5.  The lists of a new store hold only patterns that compile, and
    this is kept by every list method, by the [join_on_invite] setter and
    by loading a mapping, whether the call returns or raises; the pattern
    objects that reach the store inside an argument are taken to be ones
    that [re.compile] returned.  A string that does not compile is thus
    never a member.  The members that a list's getter shows are pairwise
    distinct. *)
Theorem store_invariant (c : Config) (t : Target) (o : ListOp) (value v : Value)
    (d : list (string * Value)) :
  store_ok re_compile c →
  genuine re_compile value = true →
  Forall (λ kv, genuine re_compile kv.2 = true) d →
  store_ok re_compile Config_default
  ∧ store_ok re_compile (after (method re_compile t o value) c)
  ∧ store_ok re_compile (after (join_on_invite_setter v) c)
  ∧ store_ok re_compile (after (_load_config_dict re_compile d) c)
  ∧ ∀ c' t', ∃ l, outcome (getter t') c' = Return (VSet l) ∧ NoDup l.
Proof.
  intros Hc Hvalue Hd. split; [split; apply all_compiled_empty|].
  split; [by apply method_ok|]. split; [exact Hc|].
  split; [by apply load_loop_ok|].
  intros c' t'. exists (VPattern <$> elements (list_of t' c')). split.
  - by destruct t'.
  - apply NoDup_fmap_2; [by intros p q [= ->] | apply NoDup_elements].
Qed.

End Invariant.

Section Persistence.

Variable re_compile : string → Compile.
Variable toml_dump : Value → FileContent.

(** The mapping [tmp] that [save_toml] builds for a store. *)
Lemma asdict_fields c :
  asdict c _config_dict_factory = Return (saved (saved_fields c)).
Proof. reflexivity. Qed.

Lemma run_save_toml fs file_path c :
  run (save_toml toml_dump fs file_path) c
  = ({| self := c; stdout := [] |},
     if bool_decide (file_path ∈ unwritable fs) then Raise OSError
     else Return {| files := <[file_path := toml_dump (saved (saved_fields c))]> (files fs);
                    unwritable := unwritable fs |}).
Proof.
  unfold run, save_toml. unfold_monad. cbn [self]. rewrite asdict_fields.
  by destruct (bool_decide (file_path ∈ unwritable fs)).
Qed.

Lemma pattern_set_members (s : gset Pattern) (x : Value) :
  x ∈ VPattern <$> elements s ↔ ∃ p, x = VPattern p ∧ p ∈ s.
Proof.
  rewrite list_elem_of_fmap. split; intros (p & -> & Hp); exists p;
    (split; [done|]); by apply elem_of_elements.
Qed.

(** Loading from a file that holds the tables [simplematrixbotlib] and
    [config] is loading the [config] table. *)
Lemma load_toml_saved fs file_path config w :
  files fs !! file_path = Some (TomlText (saved config)) →
  load_toml re_compile fs file_path w = _load_config_dict re_compile config w.
Proof.
  intros H. unfold load_toml, read_toml. unfold_monad. by rewrite H.
Qed.

Lemma setattr_pattern_set t s w :
  setattr re_compile (public_name t) (pattern_set s) w
  = ({| self := with_list t (self w) s; stdout := stdout w |}, Return VNone).
Proof.
  destruct t; cbn [public_name setattr String.eqb Ascii.eqb Bool.eqb];
    unfold allowlist_setter, blocklist_setter, assign_allowlist, assign_blocklist;
    unfold_monad; by rewrite check_pattern_set.
Qed.

End Persistence.

(** * Concrete runs

    The statements above, and the places where the specification and the
    code part ways, on the store that allows ["a.*"] and on the batch
    ["b["], ["c"] of the specification's own example. *)

Example atomicity_example :
  after (add_allowlist demo_compile (str_set ["b["; "c"])) one_allowed = one_allowed.
Proof. reflexivity. Qed.

Example overflow_example :
  run (add_allowlist demo_compile (str_set ["c"; "a{4294967296}"])) one_allowed
  = ({| self := one_allowed; stdout := [] |}, Raise OverflowError).
Proof. reflexivity. Qed.

Lemma invalid_batch_changes_nothing_witness :
  (∃ v, v ∈ ["b["; "c"] ∧ re_valid demo_compile v = false)
  ∧ after (method demo_compile Allowlist AddToList (str_set ["b["; "c"])) one_allowed
    = one_allowed.
Proof.
  assert (H : ∃ v, v ∈ ["b["; "c"] ∧ re_valid demo_compile v = false).
  { exists "b[". split; [apply list_elem_of_here | reflexivity]. }
  split; [exact H|].
  exact (invalid_batch_changes_nothing demo_compile Allowlist AddToList one_allowed
           ["b["; "c"] H).
Defined.

Lemma add_twice_is_add_once_witness :
  (∀ v, v ∈ ["c"; "d"] → re_valid demo_compile v = true)
  ∧ after (method demo_compile Blocklist AddToList (str_set ["c"; "d"]))
      (after (method demo_compile Blocklist AddToList (str_set ["c"; "d"])) one_allowed)
    = after (method demo_compile Blocklist AddToList (str_set ["c"; "d"])) one_allowed.
Proof.
  assert (H : ∀ v, v ∈ ["c"; "d"] → re_valid demo_compile v = true).
  { apply Forall_forall. repeat constructor. }
  split; [exact H|].
  exact (add_twice_is_add_once demo_compile Blocklist one_allowed ["c"; "d"] H).
Defined.





(** C3 on the store that allows ["a.*"]: what [save_toml] hands to the
    encoder under [allowlist] is the set of the store's compiled pattern
    objects, not an array of their source strings; and the encoder, which
    writes a pattern object as the string of its [repr], leaves in the file
    an array that does not hold the source ["a.*"] either. *)
Lemma save_keeps_pattern_objects :
  (∃ config v,
     asdict one_allowed _config_dict_factory = Return (saved config)
     ∧ dict_get "allowlist" config = Some v
     ∧ v = VSet [VPattern {| pattern := "a.*"; flags := 32 |}]
     ∧ ¬ source_array (_allowlist one_allowed) v)
  ∧ ∃ fs document,
      outcome (save_toml demo_toml_dump no_files "config.toml") one_allowed = Return fs
      ∧ files fs !! "config.toml" = Some (TomlText (saved document))
      ∧ dict_get "allowlist" document = Some (str_list ["re.compile('a.*')"])
      ∧ ¬ source_array (_allowlist one_allowed) (str_list ["re.compile('a.*')"]).
Proof.
  split.
  - exists (saved_fields one_allowed), (VSet [VPattern {| pattern := "a.*"; flags := 32 |}]).
    split; [reflexivity|]. split; [reflexivity|]. split; [reflexivity|].
    intros (S & H & _). discriminate H.
  - eexists _, _. split; [reflexivity|]. split; [reflexivity|]. split; [reflexivity|].
    intros (S & H & Hmem). apply str_list_inj in H as <-.
    destruct (proj1 (Hmem "re.compile('a.*')") (list_elem_of_here _ _)) as (p & Hp & Hsrc).
    cbn in Hp. apply elem_of_singleton in Hp as ->. discriminate Hsrc.
Qed.

(** C4 on the same store: saving it to a file and loading that file into
    a new store does not give the store back.  The loaded allowlist holds
    one pattern, whose source is the [repr] of the saved pattern object,
    and does not hold the pattern ["a.*"]. *)
Lemma save_then_load_loses_the_allowlist :
  ∃ fs,
    outcome (save_toml demo_toml_dump no_files "config.toml") one_allowed = Return fs
    ∧ run (load_toml demo_compile fs "config.toml") Config_default
      = ({| self := {| _join_on_invite := VBool true;
                       _allowlist := {[ {| pattern := "re.compile('a.*')"; flags := 32 |} ]};
                       _blocklist := ∅ |};
            stdout := [] |}, Return VNone)
    ∧ after (load_toml demo_compile fs "config.toml") Config_default ≠ one_allowed
    ∧ ∀ f, {| pattern := "a.*"; flags := f |}
           ∉ _allowlist (after (load_toml demo_compile fs "config.toml") Config_default).
Proof.
  exists {| files := <[ "config.toml" :=
                 demo_toml_dump (saved (saved_fields one_allowed)) ]> ∅;
            unwritable := ∅ |}.
  split; [reflexivity|]. split; [reflexivity|]. split.
  - intros H.
    apply (f_equal (λ c, bool_decide ({| pattern := "a.*"; flags := 32 |} ∈ _allowlist c))) in H.
    vm_compute in H. discriminate H.
  - intros f Hin.
    assert (Hlist : _allowlist (after (load_toml demo_compile
              {| files := <[ "config.toml" :=
                   demo_toml_dump (saved (saved_fields one_allowed)) ]> ∅;
                 unwritable := ∅ |} "config.toml") Config_default)
            = {[ {| pattern := "re.compile('a.*')"; flags := 32 |} ]}) by reflexivity.
    rewrite Hlist in Hin. apply elem_of_singleton in Hin. discriminate Hin.
Qed.

Lemma unknown_keys_ignored_witness :
  (∀ k v, (k, v) ∈ [("colour", VStr "red"); ("_allowlist", str_list ["c"])] →
          key_in k logical_fields = false)
  ∧ run (_load_config_dict demo_compile
           [("colour", VStr "red"); ("_allowlist", str_list ["c"])]) one_allowed
    = ({| self := one_allowed; stdout := [] |}, Return VNone).
Proof.
  assert (H : ∀ k v, (k, v) ∈ [("colour", VStr "red"); ("_allowlist", str_list ["c"])] →
                     key_in k logical_fields = false).
  { intros k v Hin. apply list_elem_of_In in Hin. cbn in Hin.
    destruct Hin as [H|[H|[]]]; injection H as <- <-; reflexivity. }
  split; [exact H|].
  exact (proj2 (unknown_keys_ignored demo_compile one_allowed _) H).
Defined.

Lemma join_on_invite_unchecked_witness :
  (∀ k x, (k, x) ∈ [("colour", VStr "red")] ++ [] → key_in k logical_fields = false)
  ∧ run (_load_config_dict demo_compile
           ([("colour", VStr "red")] ++ ("join_on_invite", VStr "maybe") :: [])) one_allowed
    = ({| self := with_join_on_invite one_allowed (VStr "maybe"); stdout := [] |},
       Return VNone).
Proof.
  assert (H : ∀ k x, (k, x) ∈ [("colour", VStr "red")] ++ [] →
                     key_in k logical_fields = false).
  { intros k x Hin. apply list_elem_of_In in Hin. cbn in Hin.
    destruct Hin as [H|[]]; injection H as <- <-; reflexivity. }
  split; [exact H|].
  exact (proj2 (join_on_invite_unchecked demo_compile one_allowed (VStr "maybe")
                  [("colour", VStr "red")] [] H)).
Defined.

Lemma store_invariant_witness :
  store_ok demo_compile one_allowed
  ∧ genuine demo_compile (str_set ["b"; "c"]) = true
  ∧ Forall (λ kv, genuine demo_compile kv.2 = true) [("blocklist", str_list ["c"; "d["])]
  ∧ store_ok demo_compile
      (after (method demo_compile Allowlist AddToList (str_set ["b"; "c"])) one_allowed)
  ∧ store_ok demo_compile
      (after (_load_config_dict demo_compile [("blocklist", str_list ["c"; "d["])])
         one_allowed).
Proof.
  assert (Hc : store_ok demo_compile one_allowed).
  { split; intros p Hp; cbn in Hp.
    - apply elem_of_singleton in Hp as ->. reflexivity.
    - by apply not_elem_of_empty in Hp. }
  assert (Hv : genuine demo_compile (str_set ["b"; "c"]) = true) by reflexivity.
  assert (Hd : Forall (λ kv, genuine demo_compile kv.2 = true)
                 [("blocklist", str_list ["c"; "d["])]) by (repeat constructor).
  split; [exact Hc|]. split; [exact Hv|]. split; [exact Hd|].
  destruct (store_invariant demo_compile one_allowed Allowlist AddToList
              (str_set ["b"; "c"]) VNone _ Hc Hv Hd) as (_ & Hm & _ & Hl & _).
  split; [exact Hm | exact Hl].
Defined.

(** * Further properties of the module *)

Section Batches.

Variable re_compile : string → Compile.

Lemma patterns_of_cons v vs p :
  pattern_of re_compile v = Some p →
  patterns_of re_compile (v :: vs) = {[ p ]} ∪ patterns_of re_compile vs.
Proof. intros H. unfold patterns_of. cbn [omap list_omap]. by rewrite H. Qed.

(** The four ways the validation loop can end. *)
Lemma check_loop_cases vs acc w :
  (forallb (acceptable re_compile) vs = true
   ∧ check_loop re_compile vs acc w
     = (w, Return (Some (acc ∪ patterns_of re_compile vs))))
  ∨ (forallb (acceptable re_compile) vs = false
     ∧ ∃ s, VStr s ∈ vs ∧ re_compile s = ReError
            ∧ check_loop re_compile vs acc w
              = (with_line w (invalid_message s), Return None))
  ∨ (forallb (acceptable re_compile) vs = false
     ∧ (∃ v, v ∈ vs ∧ str_or_pattern v = false)
     ∧ check_loop re_compile vs acc w = (w, Raise TypeError))
  ∨ (forallb (acceptable re_compile) vs = false
     ∧ ∃ s e, VStr s ∈ vs ∧ re_compile s = Uncaught e
              ∧ check_loop re_compile vs acc w = (w, Raise e)).
Proof.
  revert acc. induction vs as [|v vs IH]; intros acc.
  { left. split; [done|]. unfold patterns_of. cbn. by rewrite union_empty_r_L. }
  assert (Hnext : ∀ p, pattern_of re_compile v = Some p →
    acceptable re_compile v = true →
    check_loop re_compile (v :: vs) acc w = check_loop re_compile vs (acc ∪ {[ p ]}) w).
  { intros p Hp Hv. destruct v; try discriminate Hp; cbn in Hp, Hv |- *.
    - unfold compile_str in Hp. destruct (re_compile s); try discriminate Hp.
      by injection Hp as <-.
    - by injection Hp as <-. }
  destruct (acceptable re_compile v) eqn:Hv.
  - assert (∃ p, pattern_of re_compile v = Some p) as [p Hp].
    { destruct v; try discriminate Hv; cbn in Hv |- *; [|eauto].
      destruct (compile_str_valid re_compile s Hv) as (f & _ & ->). eauto. }
    rewrite (Hnext p Hp eq_refl). cbn [forallb]. rewrite Hv. cbn [andb].
    destruct (IH (acc ∪ {[ p ]}))
      as [[Hall ->]|[(Hall & s & Hin & Hs & ->)|[(Hall & (x & Hin & Hx) & ->)
          |(Hall & s & e & Hin & Hs & ->)]]].
    + left. split; [done|]. by rewrite (patterns_of_cons v vs p Hp), (assoc_L (∪)).
    + right; left. split; [done|]. exists s. split; [by right | done].
    + right; right; left. split; [done|]. split; [|done].
      exists x. split; [by right | done].
    + right; right; right. split; [done|]. exists s, e. split; [by right | done].
  - cbn [forallb]. rewrite Hv. cbn [andb]. destruct v; try discriminate Hv;
      try (right; right; left; split; [done|]; split; [|reflexivity];
           eexists; split; [by left | reflexivity]).
    cbn in Hv. unfold re_valid in Hv. cbn [check_loop].
    destruct (re_compile s) as [f| |e] eqn:Hs; [discriminate Hv| |].
    + right; left. split; [done|]. exists s. split; [by left|]. done.
    + right; right; right. split; [done|]. exists s, e. split; [by left|]. done.
Qed.

Lemma accepted_members value :
  accepted re_compile value = true →
  py_iter value = Return (members value)
  ∧ forallb (acceptable re_compile) (members value) = true.
Proof.
  unfold accepted, members. by destruct (py_iter value).
Qed.

Lemma check_accepted value w :
  accepted re_compile value = true →
  _check_set_regex re_compile value w
  = (w, Return (Some (patterns_of re_compile (members value)))).
Proof.
  intros H. destruct (accepted_members value H) as [Hiter Hall].
  unfold _check_set_regex. unfold_monad. rewrite Hiter.
  destruct (check_loop_cases (members value) ∅ w)
    as [[_ ->]|[(Hno & _)|[(Hno & _)|(Hno & _)]]]; [|congruence..].
  by rewrite union_empty_l_L.
Qed.

Lemma check_not_accepted value w :
  accepted re_compile value = false →
  (∃ s, VStr s ∈ members value ∧ re_compile s = ReError
        ∧ _check_set_regex re_compile value w
          = (with_line w (invalid_message s), Return None))
  ∨ ((py_iter value = Raise TypeError
      ∨ ∃ v, v ∈ members value ∧ str_or_pattern v = false)
     ∧ _check_set_regex re_compile value w = (w, Raise TypeError))
  ∨ (∃ s e, VStr s ∈ members value ∧ re_compile s = Uncaught e
            ∧ _check_set_regex re_compile value w = (w, Raise e)).
Proof.
  unfold accepted, members, _check_set_regex. unfold_monad.
  destruct (py_iter value) as [vs|e] eqn:Hiter.
  - intros H. destruct (check_loop_cases vs ∅ w)
      as [[Hall _]|[(_ & s & Hin & Hs & ->)|[(_ & Hex & ->)|(_ & s & e & Hin & Hs & ->)]]];
      [congruence | | | ].
    + left. by exists s.
    + right; left. split; [by right | done].
    + right; right. by exists s, e.
  - intros _. right; left. destruct value; try discriminate Hiter;
      injection Hiter as <-; (split; [by left | done]).
Qed.

(** X1.  A batch that can be iterated and whose members are all strings
    that compile or pattern objects is taken whole: the method prints
    nothing, returns [None], and the list becomes the given patterns
    (assignment), gains them (add) or loses them (remove); nothing else
    of the store changes. *)
Theorem accepted_batch_is_applied (t : Target) (o : ListOp) (c : Config)
    (value : Value) :
  accepted re_compile value = true →
  run (method re_compile t o value) c
  = ({| self := with_list t c
                  (combine o (list_of t c) (patterns_of re_compile (members value)));
        stdout := [] |}, Return VNone).
Proof.
  intros H. rewrite run_method. cbn zeta. by rewrite (check_accepted value _ H).
Qed.



(** X4.  A list method prints at most one line per call.  When it prints,
    the line names a string of the batch that does not compile, the store
    is as before and the call returns [None]. *)
Theorem at_most_one_line (t : Target) (o : ListOp) (c : Config) (value : Value) :
  printed (method re_compile t o value) c = []
  ∨ ∃ s, VStr s ∈ members value ∧ re_valid re_compile s = false
         ∧ printed (method re_compile t o value) c = [invalid_message s]
         ∧ after (method re_compile t o value) c = c
         ∧ outcome (method re_compile t o value) c = Return VNone.
Proof.
  unfold outcome, after, printed. rewrite run_method. cbn zeta.
  destruct (accepted re_compile value) eqn:Hacc.
  { left. by rewrite (check_accepted value _ Hacc). }
  destruct (check_not_accepted value {| self := c; stdout := [] |} Hacc)
    as [(s & Hin & Hs & ->)|[[Hwhy ->]|(s & e & _ & _ & ->)]]; [|by left..].
  right. exists s. split; [done|]. split; [|done].
  unfold re_valid. by rewrite Hs.
Qed.

End Batches.

Section ListAlgebra.

Variable re_compile : string → Compile.

Lemma elem_of_compiled (S : list string) (p : Pattern) :
  p ∈ compiled re_compile S ↔ ∃ v, v ∈ S ∧ compile_str re_compile v = Some p.
Proof. unfold compiled. by rewrite elem_of_list_to_set, list_elem_of_omap. Qed.

Lemma compile_str_source v p : compile_str re_compile v = Some p → pattern p = v.
Proof.
  unfold compile_str. destruct (re_compile v); try discriminate. by intros [= <-].
Qed.

Lemma compile_str_Some_valid v p :
  compile_str re_compile v = Some p → re_valid re_compile v = true.
Proof. unfold compile_str, re_valid. by destruct (re_compile v). Qed.

Lemma compiled_app S1 S2 :
  compiled re_compile (S1 ++ S2) = compiled re_compile S1 ∪ compiled re_compile S2.
Proof. unfold compiled. by rewrite omap_app, list_to_set_app_L. Qed.


Lemma list_of_with_list t c s : list_of t (with_list t c s) = s.
Proof. by destruct t. Qed.

Lemma with_list_with_list t c s1 s2 :
  with_list t (with_list t c s1) s2 = with_list t c s2.
Proof. by destruct t. Qed.

Lemma with_list_same t c : with_list t c (list_of t c) = c.
Proof. by destruct t, c. Qed.

(** A batch of strings that all compile, as the store sees it. *)
Lemma after_valid t o S c :
  (∀ v, v ∈ S → re_valid re_compile v = true) →
  after (method re_compile t o (str_set S)) c
  = with_list t c (combine o (list_of t c) (compiled re_compile S)).
Proof.
  intros H. apply first_invalid_None in H.
  unfold after. by rewrite run_method_strings, H.
Qed.

(** X5.  What a list holds after a call with strings that all compile.
    Call a pattern one of the batch when it is the pattern object, source
    and flags, that [re.compile] returns for a string of the batch.  After
    an assignment the list holds the patterns of the batch and no other;
    after an add, what it held and the patterns of the batch; after a
    remove, what it held except the patterns of the batch. *)
Theorem list_members_after (t : Target) (o : ListOp) (c : Config)
    (S : list string) (p : Pattern) :
  (∀ v, v ∈ S → re_valid re_compile v = true) →
  p ∈ list_of t (after (method re_compile t o (str_set S)) c)
  ↔ match o with
    | SetList => ∃ v, v ∈ S ∧ compile_str re_compile v = Some p
    | AddToList => p ∈ list_of t c ∨ ∃ v, v ∈ S ∧ compile_str re_compile v = Some p
    | RemoveFromList =>
        p ∈ list_of t c ∧ ¬ ∃ v, v ∈ S ∧ compile_str re_compile v = Some p
    end.
Proof.
  intros H. rewrite (after_valid t o S c H), list_of_with_list.
  destruct o; cbn [combine].
  - apply elem_of_compiled.
  - by rewrite elem_of_union, elem_of_compiled.
  - by rewrite elem_of_difference, elem_of_compiled.
Qed.


(** X7.  Two calls of the same method with batches that compile amount to
    one call: two adds (two removes) to one add (remove) of both batches
    together, two assignments to the second one. *)
Theorem same_method_twice (t : Target) (o : ListOp) (c : Config)
    (S1 S2 : list string) :
  (∀ v, v ∈ S1 ++ S2 → re_valid re_compile v = true) →
  after (method re_compile t o (str_set S2))
    (after (method re_compile t o (str_set S1)) c)
  = after (method re_compile t o
             (str_set match o with SetList => S2 | _ => S1 ++ S2 end)) c.
Proof.
  intros H.
  assert (H1 : ∀ v, v ∈ S1 → re_valid re_compile v = true)
    by (intros v Hv; apply H, elem_of_app; by left).
  assert (H2 : ∀ v, v ∈ S2 → re_valid re_compile v = true)
    by (intros v Hv; apply H, elem_of_app; by right).
  rewrite (after_valid t o S1 c H1), (after_valid t o S2 _ H2).
  rewrite list_of_with_list, with_list_with_list.
  destruct o; cbn [combine].
  - by rewrite (after_valid t SetList S2 c H2).
  - rewrite (after_valid t AddToList (S1 ++ S2) c H). cbn [combine].
    by rewrite compiled_app, (assoc_L (∪)).
  - rewrite (after_valid t RemoveFromList (S1 ++ S2) c H). cbn [combine].
    by rewrite compiled_app, difference_difference_l_L.
Qed.

(** X8.  Of an add and a remove of the same batch that compiles, the
    later one decides: removing it after adding it is removing it, and
    adding it after removing it is adding it. *)
Theorem add_and_remove_last_wins (t : Target) (c : Config) (S : list string) :
  (∀ v, v ∈ S → re_valid re_compile v = true) →
  after (method re_compile t RemoveFromList (str_set S))
    (after (method re_compile t AddToList (str_set S)) c)
  = after (method re_compile t RemoveFromList (str_set S)) c
  ∧ after (method re_compile t AddToList (str_set S))
      (after (method re_compile t RemoveFromList (str_set S)) c)
    = after (method re_compile t AddToList (str_set S)) c.
Proof.
  intros H. rewrite !(after_valid t _ S _ H), !list_of_with_list, !with_list_with_list.
  cbn [combine]. split.
  - by rewrite difference_union_distr_l_L, difference_diag_L, union_empty_r_L.
  - by rewrite difference_union_L.
Qed.

(** X9.  Removing strings that compile and whose patterns the list does
    not hold is not an error and changes nothing in the store. *)
Theorem remove_absent_changes_nothing (t : Target) (c : Config) (S : list string) :
  (∀ v, v ∈ S →
        re_valid re_compile v = true
        ∧ ∀ p, compile_str re_compile v = Some p → p ∉ list_of t c) →
  run (method re_compile t RemoveFromList (str_set S)) c
  = ({| self := c; stdout := [] |}, Return VNone).
Proof.
  intros H.
  assert (Hvalid : first_invalid re_compile S = None)
    by (apply first_invalid_None; intros v Hv; apply (H v Hv)).
  rewrite run_method_strings, Hvalid. cbn [combine].
  rewrite difference_disjoint_L, with_list_same; [done|].
  apply elem_of_disjoint. intros p Hold Hnew.
  apply elem_of_compiled in Hnew as (v & Hv & Hp).
  by apply (proj2 (H v Hv) p Hp).
Qed.

(** X10.  An empty batch of any kind (an empty set, list, string or dict)
    always validates: adding it or removing it changes nothing, and
    assigning it empties the list; nothing is printed. *)
Theorem empty_batch (t : Target) (c : Config) (value : Value) :
  py_iter value = Return [] →
  run (method re_compile t AddToList value) c
  = ({| self := c; stdout := [] |}, Return VNone)
  ∧ run (method re_compile t RemoveFromList value) c
    = ({| self := c; stdout := [] |}, Return VNone)
  ∧ run (method re_compile t SetList value) c
    = ({| self := with_list t c ∅; stdout := [] |}, Return VNone).
Proof.
  intros Hiter.
  assert (Hcheck : ∀ w, _check_set_regex re_compile value w = (w, Return (Some ∅))).
  { intros w. unfold _check_set_regex. unfold_monad. by rewrite Hiter. }
  rewrite !run_method, !Hcheck. cbn [combine fst snd stdout].
  by rewrite union_empty_r_L, difference_empty_L, with_list_same.
Qed.

(** X11.  What a getter returned can be handed to any list method:
    pattern objects are not compiled again, so the call never fails
    validation, whatever the dialect.  Assigning one list's value to the
    other copies it; adding a list's own value changes nothing; removing
    it empties the list. *)
Theorem getter_value_is_accepted (t t' : Target) (o : ListOp) (c : Config)
    (v : Value) :
  outcome (getter t') c = Return v →
  run (method re_compile t o v) c
  = ({| self := with_list t c (combine o (list_of t c) (list_of t' c));
        stdout := [] |}, Return VNone).
Proof.
  intros Hv.
  assert (v = pattern_set (list_of t' c)) as ->
    by (destruct t'; cbn in Hv; by injection Hv as <-).
  by rewrite run_method, check_pattern_set.
Qed.

Lemma chars_char_strings s : chars s = VStr <$> char_strings s.
Proof. unfold chars, char_strings. by rewrite <- list_fmap_compose. Qed.

(** X12.  A bare string given where a set of strings is expected is taken
    as the batch of its characters, and a dict as the batch of its keys:
    the call does exactly what the call with those strings does. *)
Theorem bare_string_is_split (t : Target) (o : ListOp) (c : Config) (s : string)
    (d : list (string * Value)) :
  run (method re_compile t o (VStr s)) c
  = run (method re_compile t o (str_set (char_strings s))) c
  ∧ run (method re_compile t o (VDict d)) c
    = run (method re_compile t o (str_set d.*1)) c.
Proof.
  rewrite !run_method. unfold _check_set_regex, str_set. unfold_monad.
  cbn [py_iter]. by rewrite chars_char_strings, <- list_fmap_compose.
Qed.

(** X13.  So adding a bare string of two or more characters that each
    compile adds the patterns of the characters and never a pattern of
    the string itself: a pattern whose source is the string is in the list
    afterwards only if it was there before. *)
Theorem bare_string_is_not_added (t : Target) (c : Config) (s : string) :
  (2 ≤ String.length s)%nat →
  (∀ v, v ∈ char_strings s → re_valid re_compile v = true) →
  list_of t (after (method re_compile t AddToList (VStr s)) c)
  = list_of t c ∪ compiled re_compile (char_strings s)
  ∧ ∀ p, pattern p = s →
         (p ∈ list_of t (after (method re_compile t AddToList (VStr s)) c)
          ↔ p ∈ list_of t c).
Proof.
  intros Hlen Hvalid.
  assert (Hlist : list_of t (after (method re_compile t AddToList (VStr s)) c)
                  = list_of t c ∪ compiled re_compile (char_strings s)).
  { unfold after. rewrite run_method. unfold _check_set_regex. unfold_monad.
    cbn [py_iter]. rewrite chars_char_strings, check_loop_strings.
    rewrite (proj2 (first_invalid_None re_compile _) Hvalid). cbn [fst snd self combine].
    by rewrite list_of_with_list, union_empty_l_L. }
  split; [exact Hlist|]. intros p Hp. rewrite Hlist.
  rewrite elem_of_union, elem_of_compiled. split; [|by left].
  intros [Hold|(v & Hin & Hv)]; [done|]. exfalso.
  apply compile_str_source in Hv. rewrite Hp in Hv. subst v.
  unfold char_strings in Hin. apply list_elem_of_fmap in Hin as (ch & -> & _).
  cbn in Hlen. lia.
Qed.

(** X14.  In a store where every pattern of a list is the pattern object
    that [re.compile] returns for its own source, assigning to the list the
    source strings of its patterns changes nothing. *)
Theorem reassigning_own_sources (t : Target) (c : Config) :
  (∀ p, p ∈ list_of t c → compile_str re_compile (pattern p) = Some p) →
  run (method re_compile t SetList (str_set (pattern <$> elements (list_of t c)))) c
  = ({| self := c; stdout := [] |}, Return VNone).
Proof.
  intros Hlist.
  assert (Hvalid : first_invalid re_compile (pattern <$> elements (list_of t c)) = None).
  { apply first_invalid_None. intros v Hv.
    apply list_elem_of_fmap in Hv as (p & -> & Hp).
    apply (compile_str_Some_valid _ p), Hlist. by apply elem_of_elements. }
  rewrite run_method_strings, Hvalid. cbn [combine].
  assert (compiled re_compile (pattern <$> elements (list_of t c)) = list_of t c) as ->.
  { apply set_eq. intros p. rewrite elem_of_compiled. split.
    - intros (v & Hv & Hp). apply list_elem_of_fmap in Hv as (q & -> & Hq).
      apply elem_of_elements in Hq. rewrite (Hlist q Hq) in Hp.
      by injection Hp as <-.
    - intros Hp. exists (pattern p). split; [|by apply Hlist].
      apply list_elem_of_fmap. exists p. split; [done | by apply elem_of_elements]. }
  by rewrite with_list_same.
Qed.

End ListAlgebra.

Section LoadingSequences.

Variable re_compile : string → Compile.

Lemma load_loop_app d1 d2 w :
  load_loop re_compile logical_fields (d1 ++ d2) w
  = match load_loop re_compile logical_fields d1 w with
    | (w', Return _) => load_loop re_compile logical_fields d2 w'
    | (w', Raise e) => (w', Raise e)
    end.
Proof.
  revert w. induction d1 as [|[k v] d1 IH]; intros w; [done|].
  rewrite <- app_comm_cons. destruct (key_in k logical_fields) eqn:Hk.
  - rewrite !load_loop_known by done.
    destruct (setattr re_compile k v w) as [w' [r|e]]; [apply IH | done].
  - rewrite !load_loop_unknown by done. apply IH.
Qed.

(** X15.  Loading a mapping entry by entry composes: loading the entries
    of [d1] followed by those of [d2] in one call is loading [d1] and
    then, unless that raised, loading [d2]. *)
Theorem load_of_concatenation (d1 d2 : list (string * Value)) (w : World) :
  _load_config_dict re_compile (d1 ++ d2) w
  = (_load_config_dict re_compile d1;; _load_config_dict re_compile d2) w.
Proof.
  rewrite load_config_dict_eq, load_loop_app. unfold_monad.
  rewrite !load_config_dict_eq.
  by destruct (load_loop re_compile logical_fields d1 w) as [w' [r|e]].
Qed.

(** What one assignment through [setattr] can touch, and how it can
    fail. *)
Lemma setattr_frame k v w :
  (k ≠ "join_on_invite" →
   _join_on_invite (self (setattr re_compile k v w).1) = _join_on_invite (self w))
  ∧ ∀ t, k ≠ public_name t →
         list_of t (self (setattr re_compile k v w).1) = list_of t (self w).
Proof.
  unfold setattr.
  destruct (String.eqb_spec k "join_on_invite") as [->|Hj].
  { split; [done|]. intros t _. by destruct t. }
  destruct (String.eqb_spec k "allowlist") as [->|Ha].
  { change (allowlist_setter re_compile) with (method re_compile Allowlist SetList).
    rewrite method_world. cbn zeta.
    destruct (_check_set_regex re_compile v w).2 as [[s|]|e]; cbn [fst self];
      (split; [done|]); intros t Ht; by destruct t. }
  destruct (String.eqb_spec k "blocklist") as [->|Hb].
  { change (blocklist_setter re_compile) with (method re_compile Blocklist SetList).
    rewrite method_world. cbn zeta.
    destruct (_check_set_regex re_compile v w).2 as [[s|]|e]; cbn [fst self];
      (split; [done|]); intros t Ht; by destruct t. }
  done.
Qed.

Lemma setattr_raises k v w e :
  (setattr re_compile k v w).2 = Raise e →
  (setattr re_compile k v w).1 = w
  ∧ (∃ t, k = public_name t) ∧ raises_on re_compile v e.
Proof.
  assert (Hm : ∀ t, (method re_compile t SetList v w).2 = Raise e →
    (method re_compile t SetList v w).1 = w ∧ raises_on re_compile v e).
  { intros t. rewrite method_world. cbn zeta.
    destruct (accepted re_compile v) eqn:Hacc.
    { rewrite (check_accepted re_compile v w Hacc). discriminate. }
    destruct (check_not_accepted re_compile v w Hacc)
      as [(s & _ & _ & ->)|[[Hwhy ->]|(s & e' & Hin & Hs & ->)]]; [discriminate| |].
    - intros [= <-]. split; [by destruct w|]. by left.
    - intros [= <-]. split; [by destruct w|]. right. by exists s. }
  unfold setattr.
  destruct (String.eqb_spec k "join_on_invite") as [->|Hj]; [discriminate|].
  destruct (String.eqb_spec k "allowlist") as [->|Ha].
  { intros H. destruct (Hm Allowlist H) as [? ?].
    split; [done|]. split; [by exists Allowlist | done]. }
  destruct (String.eqb_spec k "blocklist") as [->|Hb]; [|discriminate].
  intros H. destruct (Hm Blocklist H) as [? ?].
  split; [done|]. split; [by exists Blocklist | done].
Qed.



Lemma load_loop_frame d w :
  ("join_on_invite" ∉ d.*1 →
   _join_on_invite (self (load_loop re_compile logical_fields d w).1)
   = _join_on_invite (self w))
  ∧ ∀ t, public_name t ∉ d.*1 →
         list_of t (self (load_loop re_compile logical_fields d w).1)
         = list_of t (self w).
Proof.
  revert w. induction d as [|[k v] d IH]; intros w; [done|].
  rewrite fmap_cons. cbn [fst].
  assert (Hstep : ∃ w',
    (load_loop re_compile logical_fields ((k, v) :: d) w
     = load_loop re_compile logical_fields d w'
     ∨ self (load_loop re_compile logical_fields ((k, v) :: d) w).1 = self w'
       ∧ w' = w)
    ∧ (k ≠ "join_on_invite" → _join_on_invite (self w') = _join_on_invite (self w))
    ∧ ∀ t, k ≠ public_name t → list_of t (self w') = list_of t (self w)).
  { destruct (key_in k logical_fields) eqn:Hk.
    - rewrite load_loop_known by done.
      pose proof (setattr_frame k v w) as Hframe.
      destruct (setattr re_compile k v w) as [w' [r|e]] eqn:Hset.
      + exists w'. split; [by left | exact Hframe].
      + destruct (setattr_raises k v w e) as (Hw & _); [by rewrite Hset|].
        rewrite Hset in Hw. cbn in Hw. subst w'. exists w. split; [right|]; done.
    - rewrite load_loop_unknown by done. exists w. split; [by left | done]. }
  destruct Hstep as (w' & [->|[Hsame ->]] & Hj & Hl).
  - destruct (IH w') as [IHj IHl]. split.
    + intros Hnot. apply not_elem_of_cons in Hnot as [Hne Hnot].
      by rewrite IHj, Hj.
    + intros t Hnot. apply not_elem_of_cons in Hnot as [Hne Hnot].
      by rewrite IHl, Hl.
  - rewrite Hsame. done.
Qed.

(** X17.  Loading touches only the fields the mapping names: a field whose
    public name is not a key of the mapping keeps its value, whatever the
    other entries hold and whether the load returns or raises. *)
Theorem load_leaves_unnamed_fields (c : Config) (d : list (string * Value)) :
  ("join_on_invite" ∉ d.*1 →
   _join_on_invite (after (_load_config_dict re_compile d) c) = _join_on_invite c)
  ∧ ∀ t, public_name t ∉ d.*1 →
         list_of t (after (_load_config_dict re_compile d) c) = list_of t c.
Proof.
  unfold after, run. rewrite load_config_dict_eq.
  apply (load_loop_frame d {| self := c; stdout := [] |}).
Qed.

Lemma Config_ext (c1 c2 : Config) :
  _join_on_invite c1 = _join_on_invite c2 →
  _allowlist c1 = _allowlist c2 → _blocklist c1 = _blocklist c2 → c1 = c2.
Proof. destruct c1, c2. cbn. by intros -> -> ->. Qed.

(** What validation returns or raises does not depend on the store or on
    what was printed before. *)
Lemma check_loop_result vs acc w w' :
  (check_loop re_compile vs acc w).2 = (check_loop re_compile vs acc w').2.
Proof.
  revert acc. induction vs as [|v vs IH]; intros acc; [done|].
  destruct v; cbn [check_loop]; try done.
  destruct (re_compile s); [apply IH | done | done].
Qed.

Lemma check_result value w w' :
  (_check_set_regex re_compile value w).2 = (_check_set_regex re_compile value w').2.
Proof.
  unfold _check_set_regex. unfold_monad.
  destruct (py_iter value); [apply check_loop_result | done].
Qed.

(** The store after a load is the store before it with some of the three
    fields replaced by values that the mapping alone determines. *)
Lemma load_loop_update d :
  ∃ (oj : option Value) (oa ob : option (gset Pattern)),
    ∀ w, self (load_loop re_compile logical_fields d w).1
         = {| _join_on_invite := default (_join_on_invite (self w)) oj;
              _allowlist := default (_allowlist (self w)) oa;
              _blocklist := default (_blocklist (self w)) ob |}.
Proof.
  induction d as [|[k v] d (oj & oa & ob & IH)].
  { exists None, None, None. intros w. cbn. by destruct (self w). }
  assert (Hlist : ∀ t, k = public_name t →
    ∃ (oj' : option Value) (oa' ob' : option (gset Pattern)),
      ∀ w, self (load_loop re_compile logical_fields ((k, v) :: d) w).1
           = {| _join_on_invite := default (_join_on_invite (self w)) oj';
                _allowlist := default (_allowlist (self w)) oa';
                _blocklist := default (_blocklist (self w)) ob' |}).
  { intros t ->.
    set (w0 := {| self := Config_default; stdout := [] |}).
    assert (Hset : ∀ w, setattr re_compile (public_name t) v w
                        = method re_compile t SetList v w) by (by destruct t).
    destruct (_check_set_regex re_compile v w0).2 as [[s|]|e] eqn:Hr.
    - exists oj, (match t with Allowlist => Some (default s oa) | Blocklist => oa end),
        (match t with Allowlist => ob | Blocklist => Some (default s ob) end).
      intros w. rewrite load_loop_known, Hset, method_world by (by destruct t).
      cbn zeta. rewrite (check_result v w w0), Hr, IH. cbn [self combine].
      destruct t; by destruct oa, ob.
    - exists oj, oa, ob.
      intros w. rewrite load_loop_known, Hset, method_world by (by destruct t).
      cbn zeta. by rewrite (check_result v w w0), Hr, IH.
    - exists None, None, None.
      intros w. rewrite load_loop_known, Hset, method_world by (by destruct t).
      cbn zeta. rewrite (check_result v w w0), Hr. cbn. by destruct (self w). }
  destruct (String.eqb_spec k "join_on_invite") as [->|Hj].
  { exists (Some (default v oj)), oa, ob. intros w.
    rewrite load_loop_known, setattr_join_on_invite, IH by done. cbn.
    by destruct oj. }
  destruct (String.eqb_spec k "allowlist") as [->|Ha]; [by apply (Hlist Allowlist)|].
  destruct (String.eqb_spec k "blocklist") as [->|Hb]; [by apply (Hlist Blocklist)|].
  exists oj, oa, ob. intros w. rewrite load_loop_unknown; [apply IH|].
  unfold key_in, logical_fields. cbn [existsb].
  destruct (String.eqb_spec k "join_on_invite"); [done|].
  destruct (String.eqb_spec k "allowlist"); [done|].
  by destruct (String.eqb_spec k "blocklist").
Qed.

(** X18.  Loading the same mapping a second time changes nothing more:
    for every mapping, the store after two loads is the store after
    one. *)
Theorem load_twice_is_load_once (c : Config) (d : list (string * Value)) :
  after (_load_config_dict re_compile d) (after (_load_config_dict re_compile d) c)
  = after (_load_config_dict re_compile d) c.
Proof.
  unfold after, run. rewrite !load_config_dict_eq.
  destruct (load_loop_update d) as (oj & oa & ob & H).
  rewrite !H. cbn [self]. apply Config_ext; cbn; by destruct oj, oa, ob.
Qed.

End LoadingSequences.

Section Documents.

Variable re_compile : string → Compile.

(** X19.  A file whose document has no [simplematrixbotlib] table, or
    whose [simplematrixbotlib] table has no [config] entry, makes
    [load_toml] raise [KeyError]; the store is as before and nothing is
    printed. *)
Theorem load_toml_without_section (c : Config) (fs : FileSystem) (file_path : string)
    (d : list (string * Value)) :
  files fs !! file_path = Some (TomlText (VDict d)) →
  dict_get "simplematrixbotlib" d = None
  ∨ (∃ table, dict_get "simplematrixbotlib" d = Some (VDict table)
              ∧ dict_get "config" table = None) →
  run (load_toml re_compile fs file_path) c
  = ({| self := c; stdout := [] |}, Raise KeyError).
Proof.
  intros Hfile [H|(table & H & Hconfig)];
    unfold run, load_toml, read_toml, getitem; unfold_monad;
    rewrite Hfile, H; [done|]. by rewrite Hconfig.
Qed.

(** X20.  [load_toml] fails before it assigns any field, with the store
    as before and nothing printed, in each of these cases: the file does
    not exist ([FileNotFoundError]); it does not hold TOML (the decoder's
    error); its [simplematrixbotlib] entry is not a table ([TypeError]);
    the [config] entry of that table is not a table ([AttributeError]). *)
Theorem load_toml_failures (c : Config) (fs : FileSystem) (file_path : string)
    (e : Exn) :
  unusable fs file_path e →
  run (load_toml re_compile fs file_path) c = ({| self := c; stdout := [] |}, Raise e).
Proof.
  intros [Hfile|Hfile|d x Hfile Hsection Hx|d table x Hfile Hsection Hconfig Hx];
    unfold run, load_toml, read_toml, getitem, items; unfold_monad; rewrite Hfile;
    try done; rewrite Hsection.
  - destruct x; try done. by destruct (Hx d0).
  - rewrite Hconfig. destruct x; try done. by destruct (Hx d0).
Qed.

End Documents.

Lemma pattern_set_inj (s s' : gset Pattern) : pattern_set s = pattern_set s' → s = s'.
Proof.
  unfold pattern_set. intros [= H].
  rewrite <- (list_to_set_elements_L s), <- (list_to_set_elements_L s').
  f_equal. revert H. generalize (elements s) (elements s').
  induction l as [|p l IH]; intros [|p' l'] H; try discriminate H; [done|].
  cbn in H. injection H as -> H. by rewrite (IH l' H).
Qed.

(** X21.  The mapping that [save_toml] builds determines the store: two
    stores for which it builds the same mapping are the same store. *)
Theorem saved_mapping_determines_store (c1 c2 : Config) :
  asdict c1 _config_dict_factory = asdict c2 _config_dict_factory → c1 = c2.
Proof.
  rewrite !asdict_fields. unfold saved, saved_fields.
  intros [= Hj Ha Hb].
  apply Config_ext; [done | |]; apply pattern_set_inj; unfold pattern_set; congruence.
Qed.

(** ** The dict factory of [save_toml] *)

Lemma dict_get_dict_set k k' v d :
  dict_get k (dict_set k' v d) = if String.eqb k' k then Some v else dict_get k d.
Proof.
  induction d as [|[k0 v0] d IH]; [done|]. cbn [dict_set dict_get].
  destruct (String.eqb_spec k0 k') as [->|Hne]; cbn [dict_get].
  - by destruct (String.eqb k' k).
  - rewrite IH. destruct (String.eqb_spec k0 k) as [->|Hne'];
      destruct (String.eqb_spec k' k) as [->|Hne'']; done.
Qed.

Lemma dict_set_keys k v d x :
  x ∈ (dict_set k v d).*1 ↔ x = k ∨ x ∈ d.*1.
Proof.
  induction d as [|[k0 v0] d IH]; cbn [dict_set].
  - rewrite fmap_cons, elem_of_cons. cbn. tauto.
  - destruct (String.eqb_spec k0 k) as [->|Hne]; rewrite !fmap_cons; cbn [fst];
      rewrite !elem_of_cons; [|rewrite IH]; tauto.
Qed.

Lemma dict_set_NoDup k v d : NoDup d.*1 → NoDup (dict_set k v d).*1.
Proof.
  induction d as [|[k0 v0] d IH]; intros Hnd; cbn [dict_set].
  - rewrite fmap_cons. apply NoDup_singleton.
  - rewrite fmap_cons in Hnd. apply NoDup_cons in Hnd as [Hk Hnd]. cbn [fst] in Hk.
    destruct (String.eqb_spec k0 k) as [->|Hne]; rewrite fmap_cons; cbn [fst].
    + by apply NoDup_cons.
    + apply NoDup_cons. split; [|by apply IH].
      rewrite dict_set_keys. intros [Heq|Hin]; [by apply Hne | by apply Hk].
Qed.

Lemma dict_get_app k (d1 d2 : list (string * Value)) :
  dict_get k (d1 ++ d2)
  = match dict_get k d1 with Some v => Some v | None => dict_get k d2 end.
Proof.
  induction d1 as [|[k0 v0] d1 IH]; [done|]. cbn [app dict_get].
  by destruct (String.eqb k0 k).
Qed.

Lemma strip_names_spec tmp acc :
  "" ∉ tmp.*1 → NoDup acc.*1 →
  ∃ config, strip_names tmp acc = Return config ∧ NoDup config.*1
    ∧ ∀ k, dict_get k config
           = match dict_get k (rev (stripped_pairs tmp)) with
             | Some v => Some v
             | None => dict_get k acc
             end.
Proof.
  revert acc. induction tmp as [|[name value] tmp IH]; intros acc Hne Hnd.
  { exists acc. done. }
  rewrite fmap_cons in Hne. apply not_elem_of_cons in Hne as [Hname Hne].
  cbn [fst] in Hname. destruct name as [|ch rest]; [done|].
  cbn [strip_names _strip_leading_underscore]. unfold_monad.
  unfold stripped_pairs. rewrite fmap_cons. cbn [fst snd rev].
  fold (stripped_pairs tmp).
  assert (Hkey : ∀ key,
    ∃ config, strip_names tmp (dict_set key value acc) = Return config
      ∧ NoDup config.*1
      ∧ ∀ k, dict_get k config
             = match dict_get k (rev (stripped_pairs tmp) ++ [(key, value)]) with
               | Some v => Some v
               | None => dict_get k acc
               end).
  { intros key.
    destruct (IH (dict_set key value acc) Hne (dict_set_NoDup key value acc Hnd))
      as (config & Hrun & Hcnd & Hget).
    exists config. split; [done|]. split; [done|]. intros k.
    rewrite Hget, dict_get_app, dict_get_dict_set. cbn [dict_get].
    destruct (dict_get k (rev (stripped_pairs tmp))); [done|].
    by destruct (String.eqb key k). }
  destruct (Ascii.eqb ch "_"%char); apply Hkey.
Qed.

(** X22.  For field names that are all non-empty, [_config_dict_factory]
    returns the two fixed tables around a table with distinct keys in
    which every key is a name without its leading underscore; when two
    names become the same key, the value of the later one is kept. *)
Theorem factory_keeps_last_value (tmp : list (string * Value)) :
  "" ∉ tmp.*1 →
  ∃ config,
    _config_dict_factory tmp
    = Return (VDict [("simplematrixbotlib", VDict [("config", VDict config)])])
    ∧ NoDup config.*1
    ∧ ∀ k, dict_get k config = dict_get k (rev (stripped_pairs tmp)).
Proof.
  intros Hne. destruct (strip_names_spec tmp [] Hne (NoDup_nil_2)) as (config & H & Hnd & Hget).
  exists config. unfold _config_dict_factory. unfold_monad. rewrite H.
  split; [done|]. split; [done|]. intros k. rewrite Hget.
  by destruct (dict_get k (rev (stripped_pairs tmp))).
Qed.

(** X23.  An empty field name makes [_config_dict_factory] raise
    [IndexError], whatever the other names are. *)
Theorem factory_raises_on_empty_name (tmp : list (string * Value)) :
  "" ∈ tmp.*1 → _config_dict_factory tmp = Raise IndexError.
Proof.
  intros Hin. unfold _config_dict_factory. unfold_monad.
  assert (H : ∀ acc, strip_names tmp acc = Raise IndexError).
  { induction tmp as [|[name value] tmp IH]; intros acc; [by inversion Hin|].
    rewrite fmap_cons in Hin. apply elem_of_cons in Hin as [Hname|Hin].
    - cbn [fst] in Hname. by subst name.
    - cbn [strip_names]. unfold_monad. destruct name as [|ch rest]; [done|].
      cbn [_strip_leading_underscore]. destruct (Ascii.eqb ch "_"%char); by apply IH. }
  by rewrite H.
Qed.


(** * Concrete runs of the further properties *)

Lemma accepted_batch_is_applied_witness :
  accepted demo_compile (VList [VStr "c"; VPattern {| pattern := "a"; flags := 34 |}]) = true
  ∧ run (method demo_compile Allowlist AddToList
           (VList [VStr "c"; VPattern {| pattern := "a"; flags := 34 |}])) one_allowed
    = ({| self := with_list Allowlist one_allowed
                    (combine AddToList (list_of Allowlist one_allowed)
                       (patterns_of demo_compile
                          (members (VList [VStr "c";
                                           VPattern {| pattern := "a"; flags := 34 |}]))));
          stdout := [] |}, Return VNone).
Proof.
  exact (conj eq_refl
           (accepted_batch_is_applied demo_compile Allowlist AddToList one_allowed
              (VList [VStr "c"; VPattern {| pattern := "a"; flags := 34 |}]) eq_refl)).
Defined.



Lemma list_members_after_witness :
  (∀ v, v ∈ ["a"] → re_valid demo_compile v = true)
  ∧ ({| pattern := "a"; flags := 34 |}
       ∈ list_of Allowlist
           (after (method demo_compile Allowlist SetList (str_set ["a"])) one_allowed)
     ↔ ∃ v, v ∈ ["a"]
            ∧ compile_str demo_compile v = Some {| pattern := "a"; flags := 34 |}).
Proof.
  assert (H : ∀ v, v ∈ ["a"] → re_valid demo_compile v = true)
    by (apply Forall_forall; repeat constructor).
  exact (conj H (list_members_after demo_compile Allowlist SetList one_allowed ["a"]
                   {| pattern := "a"; flags := 34 |} H)).
Defined.


Example iteration_order_and_overflow :
  outcome (method demo_compile Allowlist AddToList (str_set ["b["; "a{4294967296}"]))
    one_allowed = Return VNone
  ∧ outcome (method demo_compile Allowlist AddToList (str_set ["a{4294967296}"; "b["]))
      one_allowed = Raise OverflowError.
Proof. split; reflexivity. Qed.

Lemma same_method_twice_witness :
  (∀ v, v ∈ ["c"] ++ ["d"] → re_valid demo_compile v = true)
  ∧ after (method demo_compile Allowlist RemoveFromList (str_set ["d"]))
      (after (method demo_compile Allowlist RemoveFromList (str_set ["c"])) one_allowed)
    = after (method demo_compile Allowlist RemoveFromList (str_set (["c"] ++ ["d"])))
        one_allowed.
Proof.
  assert (H : ∀ v, v ∈ ["c"] ++ ["d"] → re_valid demo_compile v = true)
    by (apply Forall_forall; repeat constructor).
  exact (conj H (same_method_twice demo_compile Allowlist RemoveFromList one_allowed
                   ["c"] ["d"] H)).
Defined.

Lemma add_and_remove_last_wins_witness :
  (∀ v, v ∈ ["a.*"] → re_valid demo_compile v = true)
  ∧ after (method demo_compile Allowlist RemoveFromList (str_set ["a.*"]))
      (after (method demo_compile Allowlist AddToList (str_set ["a.*"])) one_allowed)
    = after (method demo_compile Allowlist RemoveFromList (str_set ["a.*"])) one_allowed.
Proof.
  assert (H : ∀ v, v ∈ ["a.*"] → re_valid demo_compile v = true)
    by (apply Forall_forall; repeat constructor).
  exact (conj H (proj1 (add_and_remove_last_wins demo_compile Allowlist one_allowed
                          ["a.*"] H))).
Defined.

Lemma remove_absent_changes_nothing_witness :
  (∀ v, v ∈ ["zz"] →
        re_valid demo_compile v = true
        ∧ ∀ p, compile_str demo_compile v = Some p → p ∉ list_of Allowlist one_allowed)
  ∧ run (method demo_compile Allowlist RemoveFromList (str_set ["zz"])) one_allowed
    = ({| self := one_allowed; stdout := [] |}, Return VNone).
Proof.
  assert (H : ∀ v, v ∈ ["zz"] →
            re_valid demo_compile v = true
            ∧ ∀ p, compile_str demo_compile v = Some p
                   → p ∉ list_of Allowlist one_allowed).
  { intros v Hv. apply list_elem_of_singleton in Hv as ->. split; [reflexivity|].
    intros p [= <-]. cbn. intros Hin. apply elem_of_singleton in Hin. discriminate Hin. }
  exact (conj H (remove_absent_changes_nothing demo_compile Allowlist one_allowed ["zz"] H)).
Defined.

Lemma empty_batch_witness :
  py_iter (VStr "") = Return []
  ∧ run (method demo_compile Allowlist SetList (VStr "")) one_allowed
    = ({| self := with_list Allowlist one_allowed ∅; stdout := [] |}, Return VNone).
Proof.
  exact (conj eq_refl
           (proj2 (proj2 (empty_batch demo_compile Allowlist one_allowed (VStr "") eq_refl)))).
Defined.

Lemma getter_value_is_accepted_witness :
  outcome (getter Allowlist) one_allowed = Return (pattern_set (_allowlist one_allowed))
  ∧ run (method demo_compile Blocklist SetList (pattern_set (_allowlist one_allowed)))
        one_allowed
    = ({| self := with_list Blocklist one_allowed
                    (combine SetList (list_of Blocklist one_allowed)
                       (list_of Allowlist one_allowed));
          stdout := [] |}, Return VNone).
Proof.
  exact (conj eq_refl
           (getter_value_is_accepted demo_compile Blocklist Allowlist SetList one_allowed
              (pattern_set (_allowlist one_allowed)) eq_refl)).
Defined.

Lemma bare_string_is_not_added_witness :
  (2 ≤ String.length "ab")%nat
  ∧ (∀ v, v ∈ char_strings "ab" → re_valid demo_compile v = true)
  ∧ ({| pattern := "ab"; flags := 32 |}
       ∈ list_of Allowlist
           (after (method demo_compile Allowlist AddToList (VStr "ab")) one_allowed)
     ↔ {| pattern := "ab"; flags := 32 |} ∈ list_of Allowlist one_allowed).
Proof.
  assert (Hlen : (2 ≤ String.length "ab")%nat) by (cbn; lia).
  assert (H : ∀ v, v ∈ char_strings "ab" → re_valid demo_compile v = true)
    by (apply Forall_forall; repeat constructor).
  exact (conj Hlen (conj H (proj2 (bare_string_is_not_added demo_compile Allowlist
                                     one_allowed "ab" Hlen H)
                              {| pattern := "ab"; flags := 32 |} eq_refl))).
Defined.

Lemma reassigning_own_sources_witness :
  (∀ p, p ∈ list_of Allowlist one_allowed →
        compile_str demo_compile (pattern p) = Some p)
  ∧ run (method demo_compile Allowlist SetList
           (str_set (pattern <$> elements (list_of Allowlist one_allowed)))) one_allowed
    = ({| self := one_allowed; stdout := [] |}, Return VNone).
Proof.
  assert (H : ∀ p, p ∈ list_of Allowlist one_allowed →
                   compile_str demo_compile (pattern p) = Some p).
  { intros p Hp. cbn in Hp. apply elem_of_singleton in Hp as ->. reflexivity. }
  exact (conj H (reassigning_own_sources demo_compile Allowlist one_allowed H)).
Defined.

Example reassigning_a_flagged_pattern :
  after (method demo_compile Allowlist SetList (str_set ["a"]))
    (with_allowlist one_allowed {[ {| pattern := "a"; flags := 34 |} ]})
  = with_allowlist one_allowed {[ {| pattern := "a"; flags := 32 |} ]}.
Proof. reflexivity. Qed.


Example load_is_not_atomic :
  after (_load_config_dict demo_compile
           [("join_on_invite", VBool false); ("allowlist", VInt 3);
            ("blocklist", str_list ["c"])]) one_allowed
  = with_join_on_invite one_allowed (VBool false).
Proof. reflexivity. Qed.

Lemma load_leaves_unnamed_fields_witness :
  ("join_on_invite" ∉ ([("allowlist", VInt 3)].*1))
  ∧ _join_on_invite (after (_load_config_dict demo_compile [("allowlist", VInt 3)])
                       one_allowed)
    = _join_on_invite one_allowed.
Proof.
  assert (H : "join_on_invite" ∉ ([("allowlist", VInt 3)].*1)).
  { cbn. intros Hin. apply list_elem_of_singleton in Hin. discriminate Hin. }
  exact (conj H (proj1 (load_leaves_unnamed_fields demo_compile one_allowed
                          [("allowlist", VInt 3)]) H)).
Defined.

Lemma load_toml_without_section_witness :
  files {| files := {[ "config.toml" := TomlText (VDict [("title", VStr "bot")]) ]};
           unwritable := ∅ |} !! "config.toml"
  = Some (TomlText (VDict [("title", VStr "bot")]))
  ∧ dict_get "simplematrixbotlib" [("title", VStr "bot")] = None
  ∧ run (load_toml demo_compile
           {| files := {[ "config.toml" := TomlText (VDict [("title", VStr "bot")]) ]};
              unwritable := ∅ |} "config.toml") one_allowed
    = ({| self := one_allowed; stdout := [] |}, Raise KeyError).
Proof.
  exact (conj eq_refl (conj eq_refl
           (load_toml_without_section demo_compile one_allowed
              {| files := {[ "config.toml" := TomlText (VDict [("title", VStr "bot")]) ]};
                 unwritable := ∅ |} "config.toml" [("title", VStr "bot")]
              eq_refl (or_introl eq_refl)))).
Defined.

Lemma load_toml_failures_witness :
  unusable no_files "config.toml" FileNotFoundError
  ∧ run (load_toml demo_compile no_files "config.toml") one_allowed
    = ({| self := one_allowed; stdout := [] |}, Raise FileNotFoundError).
Proof.
  assert (H : unusable no_files "config.toml" FileNotFoundError)
    by (apply unusable_missing; reflexivity).
  exact (conj H (load_toml_failures demo_compile one_allowed no_files "config.toml"
                   FileNotFoundError H)).
Defined.

Lemma saved_mapping_determines_store_witness :
  asdict one_allowed _config_dict_factory
  = asdict (with_join_on_invite one_allowed (VBool true)) _config_dict_factory
  ∧ one_allowed = with_join_on_invite one_allowed (VBool true).
Proof.
  exact (conj eq_refl
           (saved_mapping_determines_store one_allowed
              (with_join_on_invite one_allowed (VBool true)) eq_refl)).
Defined.

Lemma factory_keeps_last_value_witness :
  ("" ∉ ([("_a", VInt 1); ("a", VInt 2)].*1))
  ∧ ∃ config,
      _config_dict_factory [("_a", VInt 1); ("a", VInt 2)]
      = Return (VDict [("simplematrixbotlib", VDict [("config", VDict config)])])
      ∧ NoDup config.*1
      ∧ ∀ k, dict_get k config
             = dict_get k (rev (stripped_pairs [("_a", VInt 1); ("a", VInt 2)])).
Proof.
  assert (H : "" ∉ ([("_a", VInt 1); ("a", VInt 2)].*1)).
  { cbn. intros Hin. apply list_elem_of_In in Hin. cbn in Hin.
    destruct Hin as [Hin|[Hin|[]]]; discriminate Hin. }
  exact (conj H (factory_keeps_last_value [("_a", VInt 1); ("a", VInt 2)] H)).
Defined.

Example factory_collision :
  _config_dict_factory [("_a", VInt 1); ("a", VInt 2)] = Return (saved [("a", VInt 2)]).
Proof. reflexivity. Qed.

Lemma factory_raises_on_empty_name_witness :
  ("" ∈ ([("_a", VInt 1); ("", VInt 2)].*1))
  ∧ _config_dict_factory [("_a", VInt 1); ("", VInt 2)] = Raise IndexError.
Proof.
  assert (H : "" ∈ ([("_a", VInt 1); ("", VInt 2)].*1)).
  { cbn. apply list_elem_of_In. cbn. tauto. }
  exact (conj H (factory_raises_on_empty_name [("_a", VInt 1); ("", VInt 2)] H)).
Defined.
